(** * Virtual joystick controller: pointer-to-handle mapping

    A shallow embedding of [Controller::Joystick] (virtual_joystick_controller.h
    and virtual_joystick_controller.cpp) and the properties of its event
    handlers.

    Conventions of the embedding.
    - A C++ [int] is a [Z]; the arithmetic of the handlers is on pixel
      coordinates and widget sizes, far from the limits of [int] (signed
      overflow has no defined result in C++ anyway).  Integer division [/]
      truncates toward zero, hence [Z.quot] (written [÷]).
    - A C++ [char] is an 8-bit signed value (the x86 ABIs); the conversion of
      an [int] to [char] is [int_to_char].
    - A [double] is the real number it denotes, and every operation on
      doubles rounds its exact result: a [DoubleArith] gives the rounding
      [fl] and the three functions of the C library the handler calls
      ([acos], [cos], [sin]) with the constant [M_PI]; the handler is
      embedded over any of them.  [DoubleLaws] states what IEEE 754 and the C
      library give at the magnitudes of a widget (no overflow or underflow,
      integers below 2^53): integers are doubles, rounding is monotone and
      within half a unit in the last place, the library functions are
      within a few units in the last place of the functions they compute,
      and exact where Annex F of the C standard says so.  Only the theorems
      on the clamped position assume these laws.  The conversion of a
      [double] to [int] truncates toward zero, [double_to_int].
      [pow(n, 2)] of an [int] below 2^26 is exact in a [double], so
      [contains] is decided on [Z].
    - [QWidget::width()] and [QWidget::height()] are two fields of the state;
      an emitted signal is an element of the list an event handler returns;
      [update()] only schedules a repaint and leaves no trace in the state. *)

From Stdlib Require Import ZArith List Bool Lia Reals Lra Psatz.
Import ListNotations.

Open Scope Z_scope.

Module Controller.

(** ** Qt value types *)

Record QPoint : Set := mkQPoint { qx : Z; qy : Z }.

Record QSize : Set := mkQSize { size_width : Z; size_height : Z }.

(** [struct Circle]: only the radius is stored. *)
Record Circle : Set := mkCircle { radius : Z }.

(** [explicit Circle() : m_radius(0)] *)
Definition Circle_new : Circle := mkCircle 0.

Definition setRadius (r : Z) (_ : Circle) : Circle := mkCircle r.

(** ** [enum JoystickMode] and its operators *)

Inductive JoystickMode : Set := NoAxis | XAxisOnly | YAxisOnly | AllAxis.

(** [static_cast<int>(mode)]: enumerators are numbered from 0 in order. *)
Definition int_of_mode (m : JoystickMode) : Z :=
  match m with
  | NoAxis => 0
  | XAxisOnly => 1
  | YAxisOnly => 2
  | AllAxis => 3
  end.

(** [static_cast<JoystickMode>(n)]: [None] when [n] names no enumerator. *)
Definition mode_of_int (n : Z) : option JoystickMode :=
  match n with
  | 0 => Some NoAxis
  | 1 => Some XAxisOnly
  | 2 => Some YAxisOnly
  | 3 => Some AllAxis
  | _ => None
  end.

(** [operator|], from [DEFINE_ENUM_OR_OPERATOR(Joystick::JoystickMode)]. *)
Definition operator_or (lhs rhs : JoystickMode) : option JoystickMode :=
  mode_of_int (Z.lor (int_of_mode lhs) (int_of_mode rhs)).

(** [operator&] *)
Definition operator_and (lhs rhs : JoystickMode) : option JoystickMode :=
  mode_of_int (Z.land (int_of_mode lhs) (int_of_mode rhs)).

(** ** Conversions *)

(** [int] to [char]: the value modulo 2^8, in [-128, 127]. *)
Definition int_to_char (v : Z) : Z := (v + 128) mod 256 - 128.

(** [double] to [int]: the fractional part is discarded. *)
Definition double_to_int (d : R) : Z :=
  if Rle_dec 0 d then Int_part d else - Int_part (- d).

(** ** Double arithmetic *)

(** The arithmetic of doubles the handler relies on: [fl] rounds the exact
    result of an operation to a double; [acosd], [cosd] and [sind] are
    [acos], [cos] and [sin] of the C library; [M_PI] is its constant. *)
Record DoubleArith : Type := mkDoubleArith {
  fl : R -> R;
  acosd : R -> R;
  cosd : R -> R;
  sind : R -> R;
  M_PI : R
}.

(** Half a unit in the last place, relative: 2^-53. *)
Definition unit_roundoff : R := / 9007199254740992.

(** The error allowed to the library functions and to [M_PI]: 2^-50. *)
Definition libm_error : R := / 1125899906842624.

(** What the handler's computation needs of IEEE 754 binary64 and of the C
    library.
    - [fl_int]: an integer is a double.  The handler converts [int]s, adds
      two of them, and squares the offsets: all are integers below 2^53 at
      the magnitudes of a widget, where binary64 holds every integer.
    - [fl_mono], [fl_error]: rounding to nearest is monotone and off by at
      most [unit_roundoff], relative to the exact result (no overflow or
      underflow occurs at these magnitudes).
    - [M_PI_error]: the constant is the double nearest to pi.
    - [acosd_1], [cosd_0], [sind_0]: [acos(1)] is [0], [cos(0)] is [1] and
      [sin(0)] is [0], exactly (Annex F of the C standard).
    - [acosd_error], [cosd_error], [sind_error]: the library functions are
      within [libm_error], some units in the last place, of the functions
      they compute; for [cos] and [sin] on the arguments the handler passes
      them, which lie within two turns of [0].
    - [cosd_bound], [sind_bound]: a computed cosine or sine is in [[-1, 1]]. *)
Record DoubleLaws (A : DoubleArith) : Prop := mkDoubleLaws {
  fl_int : forall n : Z, fl A (IZR n) = IZR n;
  fl_mono : forall s t : R, (s <= t)%R -> (fl A s <= fl A t)%R;
  fl_error : forall t : R, (Rabs (fl A t - t) <= unit_roundoff * Rabs t)%R;
  M_PI_error : (Rabs (M_PI A - PI) <= libm_error)%R;
  acosd_1 : acosd A 1 = 0%R;
  cosd_0 : cosd A 0 = 1%R;
  sind_0 : sind A 0 = 0%R;
  acosd_error : forall r : R, (-1 <= r <= 1)%R ->
                              (Rabs (acosd A r - acos r) <= libm_error)%R;
  cosd_error : forall a : R, (Rabs a <= 32)%R ->
                             (Rabs (cosd A a - cos a) <= libm_error)%R;
  sind_error : forall a : R, (Rabs a <= 32)%R ->
                             (Rabs (sind A a - sin a) <= libm_error)%R;
  cosd_bound : forall a : R, (-1 <= cosd A a <= 1)%R;
  sind_bound : forall a : R, (-1 <= sind A a <= 1)%R
}.

(** The arithmetic without any rounding, one that satisfies the laws. *)
Definition exactArith : DoubleArith :=
  {| fl := fun t => t; acosd := acos; cosd := cos; sind := sin; M_PI := PI |}.

(** The bounds the error analysis of the clamping branch arrives at: on
    the angle, from the square root of a rounded ratio, and on a clamped
    coordinate with travel radius [jr] and centre coordinate [c]. *)
Definition phase_error : R := (3 * libm_error + 40 * unit_roundoff)%R.

Definition sqrt_slack : R := / 33554432.

Definition clampTolerance (jr c : Z) : R :=
  ((IZR jr + IZR (Z.abs c) + 1) / 1048576)%R.

(** ** The widget *)

Record Joystick : Type := mkJoystick {
  width : Z;                      (* QWidget::width() *)
  height : Z;                     (* QWidget::height() *)
  m_x : Z;                        (* char *)
  m_y : Z;                        (* char *)
  m_backToZero : bool;
  m_mode : JoystickMode;
  m_joystick : Circle;
  m_controller : Circle;
  m_controllerPosition : QPoint
}.

Inductive Signal : Set :=
| pressed
| valueChanged (x y : Z).         (* two [char] arguments *)

(** What a call of an event handler does: it returns, with the new state and
    the signals it emitted, or the program is terminated. *)
Inductive Outcome : Type :=
| Returned (j : Joystick) (emitted : list Signal)
| Terminated.

(** [Joystick::Joystick]; [w] and [h] are the geometry the widget is given.
    The three members without an initialiser are default-constructed. *)
Definition Joystick_new (w h : Z) : Joystick :=
  {| width := w; height := h;
     m_x := 0; m_y := 0;
     m_backToZero := true;
     m_mode := AllAxis;
     m_joystick := Circle_new;
     m_controller := Circle_new;
     m_controllerPosition := mkQPoint 0 0 |}.

Definition x (j : Joystick) : Z := m_x j.
Definition y (j : Joystick) : Z := m_y j.
Definition mode (j : Joystick) : JoystickMode := m_mode j.
Definition backToZero (j : Joystick) : bool := m_backToZero j.

Definition setMode (m : JoystickMode) (j : Joystick) : Joystick :=
  {| width := width j; height := height j; m_x := m_x j; m_y := m_y j;
     m_backToZero := m_backToZero j;
     m_mode := m;
     m_joystick := m_joystick j; m_controller := m_controller j;
     m_controllerPosition := m_controllerPosition j |}.

Definition setBackToZero (enable : bool) (j : Joystick) : Joystick :=
  {| width := width j; height := height j; m_x := m_x j; m_y := m_y j;
     m_backToZero := enable;
     m_mode := m_mode j;
     m_joystick := m_joystick j; m_controller := m_controller j;
     m_controllerPosition := m_controllerPosition j |}.

Definition setControllerPosition (p : QPoint) (j : Joystick) : Joystick :=
  {| width := width j; height := height j; m_x := m_x j; m_y := m_y j;
     m_backToZero := m_backToZero j;
     m_mode := m_mode j;
     m_joystick := m_joystick j; m_controller := m_controller j;
     m_controllerPosition := p |}.

(** [QPoint::setX], [QPoint::setY] *)
Definition setX (v : Z) (p : QPoint) : QPoint := mkQPoint v (qy p).
Definition setY (v : Z) (p : QPoint) : QPoint := mkQPoint (qx p) v.

(** ** Free functions of the translation unit *)

Definition getCenter (w h : Z) : QPoint := mkQPoint (w ÷ 2) (h ÷ 2).

Definition contains (px py r : Z) : bool := px ^ 2 + py ^ 2 <=? r ^ 2.

Definition translateTopLeftToCenter (pos : QPoint) (boundingSize : QSize) : QPoint :=
  mkQPoint (qx pos - size_width boundingSize ÷ 2)
           (qy pos - size_height boundingSize ÷ 2).

Definition getRadius (w h : Z) : Z := Z.min w h ÷ 2 - Z.min w h ÷ 6.

(** ** Event handlers *)

(** [Qt::LeftButton] in the [Qt::MouseButtons] flags of an event. *)
Definition LeftButton : Z := 1.

(** The doubles of the clamping branch of [mouseMoveEvent], for the
    recentred pointer offsets [x] and [y]:
    [std::sqrt(std::pow(x, 2) + std::pow(y, 2))], *)
Definition clampRadius (A : DoubleArith) (x y : Z) : R :=
  fl A (sqrt (fl A (fl A (IZR x ^ 2) + fl A (IZR y ^ 2)))).

(** [x / radius], the argument of [acos], *)
Definition clampRatio (A : DoubleArith) (x y : Z) : R :=
  fl A (IZR x / clampRadius A x y).

(** the angle: [acos(x / radius)], replaced by
    [angle + (M_PI - angle) * 2.0] when [y > 0], then negated, *)
Definition clampAngle (A : DoubleArith) (x y : Z) : R :=
  let angle := acosd A (clampRatio A x y) in
  let angle :=
    if 0 <? y then fl A (angle + fl A (fl A (M_PI A - angle) * 2)) else angle in
  (- angle)%R.

(** and [m_joystick.radius() * direction + c], where [direction] is the
    cosine or the sine of the angle and [c] is [width() / 2] or
    [height() / 2]. *)
Definition clampCoordinate (A : DoubleArith) (jr : Z) (direction : R) (c : Z) : R :=
  fl A (fl A (IZR jr * direction) + IZR c).

Definition mouseMoveEvent (A : DoubleArith) (buttons ex ey : Z) (j : Joystick)
  : Outcome :=
  if negb (buttons =? LeftButton) then Returned j []
  else
    let relativeMousePosition := mkQPoint ex ey in
    let x := qx relativeMousePosition - width j ÷ 2 in
    let y := qy relativeMousePosition - height j ÷ 2 in
    let jr := radius (m_joystick j) in
    let moved (p : QPoint) :=
      Returned (setControllerPosition p j)
               [valueChanged (int_to_char x) (int_to_char y)] in
    match m_mode j with
    | AllAxis =>
        if contains x y jr then moved relativeMousePosition
        else
          let angle := clampAngle A x y in
          let p := setX (double_to_int
                           (clampCoordinate A jr (cosd A angle) (width j ÷ 2)))
                        (m_controllerPosition j) in
          let p := setY (double_to_int
                           (clampCoordinate A jr (sind A angle) (height j ÷ 2)))
                        p in
          moved p
    | XAxisOnly =>
        if (x <? jr) && (- jr <? x)
        then moved (setX (qx relativeMousePosition) (m_controllerPosition j))
        else if 0 <? x
             then moved (setX (width j ÷ 2 + jr) (m_controllerPosition j))
             else moved (setX (width j ÷ 2 - jr) (m_controllerPosition j))
    | YAxisOnly =>
        if (y <? jr) && (- jr <? y)
        then moved (setY (qy relativeMousePosition) (m_controllerPosition j))
        else if 0 <? y
             then moved (setY (height j ÷ 2 + jr) (m_controllerPosition j))
             else moved (setY (height j ÷ 2 - jr) (m_controllerPosition j))
    | NoAxis => Terminated          (* default: throw; *)
    end.

Definition mouseReleaseEvent (j : Joystick) : Joystick :=
  if m_backToZero j
  then setControllerPosition (getCenter (width j) (height j)) j
  else j.

(** [Joystick::resizeEvent]; the widget already has its new geometry. *)
Definition resizeEvent (j : Joystick) : Joystick :=
  let radius := getRadius (width j) (height j) in
  {| width := width j; height := height j; m_x := m_x j; m_y := m_y j;
     m_backToZero := m_backToZero j;
     m_mode := m_mode j;
     m_joystick := setRadius radius (m_joystick j);
     m_controller := setRadius (radius ÷ 2) (m_controller j);
     m_controllerPosition := getCenter (width j) (height j) |}.

(** The host gives the widget a new geometry and delivers the resize event. *)
Definition resized (w h : Z) (j : Joystick) : Joystick :=
  resizeEvent
    {| width := w; height := h; m_x := m_x j; m_y := m_y j;
       m_backToZero := m_backToZero j;
       m_mode := m_mode j;
       m_joystick := m_joystick j; m_controller := m_controller j;
       m_controllerPosition := m_controllerPosition j |}.

(** ** Observations used by the statements *)

(** The handle position relative to the widget centre. *)
Definition handlePos (j : Joystick) : QPoint :=
  translateTopLeftToCenter (m_controllerPosition j)
                           (mkQSize (width j) (height j)).

(** The recentred pointer offset of a mouse event at [(ex, ey)]. *)
Definition rawOffset (ex ey : Z) (j : Joystick) : QPoint :=
  translateTopLeftToCenter (mkQPoint ex ey) (mkQSize (width j) (height j)).

(** The Euclidean distance of a point from the origin, as the handler
    computes it: [std::sqrt(std::pow(x, 2) + std::pow(y, 2))]. *)
Definition distance (p : QPoint) : R :=
  sqrt (IZR (qx p) ^ 2 + IZR (qy p) ^ 2).

Definition travelRadius (j : Joystick) : Z := radius (m_joystick j).
Definition handleRadius (j : Joystick) : Z := radius (m_controller j).

(** The coordinate a single-axis mode gives the handle on its axis, for the
    pointer offset [v] on that axis and the travel radius [r] (the nested
    conditions of the XAxisOnly and YAxisOnly cases, recentred). *)
Definition clampAxis (v r : Z) : Z :=
  if (v <? r) && (- r <? v) then v else if 0 <? v then r else - r.

(** A run of pointer-move events, each [(buttons, ex, ey)], delivered in
    order; the emitted signals are collected. *)
Fixpoint mouseMoves (A : DoubleArith) (evs : list (Z * Z * Z)) (j : Joystick)
  : Outcome :=
  match evs with
  | [] => Returned j []
  | (buttons, ex, ey) :: rest =>
      match mouseMoveEvent A buttons ex ey j with
      | Returned j' out =>
          match mouseMoves A rest j' with
          | Returned j'' out' => Returned j'' (out ++ out')
          | Terminated => Terminated
          end
      | Terminated => Terminated
      end
  end.

(** Whether a pointer-move event has exactly the left button held, the
    condition under which the handler does not return at once. *)
Definition holdsLeftButton (ev : Z * Z * Z) : bool :=
  let '(buttons, _, _) := ev in buttons =? LeftButton.

(** ** The axis values and the delivery of events *)

(** [Joystick::setX] and [Joystick::setY], the setters of the two [char]
    axis values ([setX] and [setY] above are those of [QPoint]).  The
    parameter is a [char]: the argument of a call is converted to it. *)
Definition Joystick_setX (v : Z) (j : Joystick) : Joystick :=
  let x := int_to_char v in
  if negb (x =? m_x j)
  then {| width := width j; height := height j; m_x := x; m_y := m_y j;
          m_backToZero := m_backToZero j;
          m_mode := m_mode j;
          m_joystick := m_joystick j; m_controller := m_controller j;
          m_controllerPosition := m_controllerPosition j |}
  else j.

Definition Joystick_setY (v : Z) (j : Joystick) : Joystick :=
  let y := int_to_char v in
  if negb (y =? m_y j)
  then {| width := width j; height := height j; m_x := m_x j; m_y := y;
          m_backToZero := m_backToZero j;
          m_mode := m_mode j;
          m_joystick := m_joystick j; m_controller := m_controller j;
          m_controllerPosition := m_controllerPosition j |}
  else j.

(** What the host and the owner of the widget can do to it: the three event
    handlers above and the public setters. *)
Inductive Event : Set :=
| Resize (w h : Z)
| MouseMove (buttons ex ey : Z)
| MouseRelease
| SetMode (m : JoystickMode)
| SetBackToZero (enable : bool)
| SetX (v : Z)
| SetY (v : Z).

Definition deliver (A : DoubleArith) (e : Event) (j : Joystick) : Outcome :=
  match e with
  | Resize w h => Returned (resized w h j) []
  | MouseMove buttons ex ey => mouseMoveEvent A buttons ex ey j
  | MouseRelease => Returned (mouseReleaseEvent j) []
  | SetMode m => Returned (setMode m j) []
  | SetBackToZero enable => Returned (setBackToZero enable j) []
  | SetX v => Returned (Joystick_setX v j) []
  | SetY v => Returned (Joystick_setY v j) []
  end.

(** Events delivered in order; the run ends with the program when a handler
    does. *)
Fixpoint run (A : DoubleArith) (evs : list Event) (j : Joystick) : Outcome :=
  match evs with
  | [] => Returned j []
  | e :: rest =>
      match deliver A e j with
      | Returned j' out =>
          match run A rest j' with
          | Returned j'' out' => Returned j'' (out ++ out')
          | Terminated => Terminated
          end
      | Terminated => Terminated
      end
  end.

(** A resize to a size no widget has is not an event of a run. *)
Definition sizeOk (e : Event) : bool :=
  match e with
  | Resize w h => (0 <=? w) && (0 <=? h)
  | _ => true
  end.

(** The events that call one of the two axis-value setters. *)
Definition setsAxisValue (e : Event) : bool :=
  match e with
  | SetX _ | SetY _ => true
  | _ => false
  end.

(** A coordinate [c'] of the handle lies on the side of the pointer's
    offset [v], no farther from the centre than the pointer or than the
    travel radius [r]. *)
Definition towardsPointer (c' v r : Z) : Prop :=
  Z.abs c' <= r /\ (0 <= v -> 0 <= c' <= v) /\ (v <= 0 -> v <= c' <= 0).

(** The events that set the mode to NoAxis. *)
Definition setsNoAxis (e : Event) : bool :=
  match e with
  | SetMode NoAxis => true
  | _ => false
  end.

(** The radii are those [resizeEvent] computes from the current geometry. *)
Definition radiiFromGeometry (j : Joystick) : Prop :=
  travelRadius j = getRadius (width j) (height j) /\
  handleRadius j = travelRadius j ÷ 2.

(** Both coordinates of the handle are within the travel radius of the
    centre. *)
Definition handleWithinTravel (j : Joystick) : Prop :=
  Z.abs (qx (handlePos j)) <= travelRadius j /\
  Z.abs (qy (handlePos j)) <= travelRadius j.

End Controller.

Import Controller.

(** * Properties *)

(** ** Integer helpers *)

Lemma quot2_nonneg (n : Z) : 0 <= n -> n ÷ 2 = n / 2.
Proof. intros Hn. apply Z.quot_div_nonneg; lia. Qed.

Lemma quot6_nonneg (n : Z) : 0 <= n -> n ÷ 6 = n / 6.
Proof. intros Hn. apply Z.quot_div_nonneg; lia. Qed.

Lemma getRadius_floor (w h : Z) :
  0 <= w -> 0 <= h -> getRadius w h = Z.min w h / 2 - Z.min w h / 6.
Proof.
  intros Hw Hh. unfold getRadius.
  rewrite quot2_nonneg, quot6_nonneg by lia. reflexivity.
Qed.

Lemma getRadius_nonneg (w h : Z) : 0 <= w -> 0 <= h -> 0 <= getRadius w h.
Proof.
  intros Hw Hh. rewrite getRadius_floor by assumption.
  assert (Hm : 0 <= Z.min w h) by lia.
  pose proof (Z.div_mod (Z.min w h) 2 ltac:(lia)).
  pose proof (Z.div_mod (Z.min w h) 6 ltac:(lia)).
  pose proof (Z.mod_pos_bound (Z.min w h) 2 ltac:(lia)).
  pose proof (Z.mod_pos_bound (Z.min w h) 6 ltac:(lia)).
  lia.
Qed.

Lemma int_to_char_range (v : Z) : -128 <= int_to_char v <= 127.
Proof.
  unfold int_to_char.
  pose proof (Z.mod_pos_bound (v + 128) 256 ltac:(lia)). lia.
Qed.

Lemma int_to_char_fits (v : Z) : -128 <= v <= 127 -> int_to_char v = v.
Proof.
  intros Hv. unfold int_to_char. rewrite Z.mod_small by lia. lia.
Qed.

Lemma int_to_char_congr (v : Z) : exists k, int_to_char v = v + 256 * k.
Proof.
  exists (- ((v + 128) / 256)). unfold int_to_char.
  pose proof (Z.div_mod (v + 128) 256 ltac:(lia)). lia.
Qed.

(** ** Construction, sizing and release *)

(** C10: a freshly constructed joystick returns to centre on release
    ([backToZero()] is true), reports [x() = 0] and [y() = 0], and allows
    both axes ([mode() = AllAxis]), whatever geometry it is given. *)
Theorem Joystick_new_defaults (w h : Z) :
  backToZero (Joystick_new w h) = true /\
  x (Joystick_new w h) = 0 /\
  y (Joystick_new w h) = 0 /\
  mode (Joystick_new w h) = AllAxis.
Proof. repeat split. Qed.

(** C6: after a resize to a [w] by [h] widget, the travel radius is
    [min w h / 2 - min w h / 6] and the handle radius is half the travel
    radius, both with floor division; a 300 by 200 widget gets (67, 33) and a
    100 by 100 widget gets (34, 17). *)
Theorem resize_computes_radii (w h : Z) (j : Joystick)
  (Hw : 0 <= w) (Hh : 0 <= h) :
  travelRadius (resized w h j) = Z.min w h / 2 - Z.min w h / 6 /\
  handleRadius (resized w h j) = travelRadius (resized w h j) / 2 /\
  (travelRadius (resized 300 200 j), handleRadius (resized 300 200 j)) = (67, 33) /\
  (travelRadius (resized 100 100 j), handleRadius (resized 100 100 j)) = (34, 17).
Proof.
  split; [| split; [| split; reflexivity]].
  - unfold travelRadius, resized, resizeEvent; simpl.
    apply getRadius_floor; assumption.
  - unfold handleRadius, travelRadius, resized, resizeEvent; simpl.
    apply quot2_nonneg. apply getRadius_nonneg; assumption.
Qed.

Lemma resize_computes_radii_witness :
  travelRadius (resized 640 480 (Joystick_new 0 0)) = Z.min 640 480 / 2 - Z.min 640 480 / 6 /\
  handleRadius (resized 640 480 (Joystick_new 0 0)) =
    travelRadius (resized 640 480 (Joystick_new 0 0)) / 2 /\
  (travelRadius (resized 300 200 (Joystick_new 0 0)),
   handleRadius (resized 300 200 (Joystick_new 0 0))) = (67, 33) /\
  (travelRadius (resized 100 100 (Joystick_new 0 0)),
   handleRadius (resized 100 100 (Joystick_new 0 0))) = (34, 17).
Proof. apply (resize_computes_radii 640 480 (Joystick_new 0 0)); lia. Defined.

(** C8: on release, with return-to-centre enabled the handle goes to the
    centre of the boundary, (0, 0) relative to the widget centre, whatever the
    travel radius; with it disabled the whole state is left as it was. *)
Theorem release_returns_to_center (j : Joystick) :
  (m_backToZero j = true ->
     handlePos (mouseReleaseEvent j) = mkQPoint 0 0 /\
     travelRadius (mouseReleaseEvent j) = travelRadius j) /\
  (m_backToZero j = false -> mouseReleaseEvent j = j).
Proof.
  unfold mouseReleaseEvent. split; intros Hflag; rewrite Hflag.
  - unfold handlePos, translateTopLeftToCenter, getCenter; simpl.
    rewrite !Z.sub_diag. split; reflexivity.
  - reflexivity.
Qed.

Lemma release_returns_to_center_witness :
  (handlePos (mouseReleaseEvent
                (setControllerPosition (mkQPoint 170 90)
                   (resized 300 200 (Joystick_new 0 0)))) = mkQPoint 0 0 /\
   travelRadius (mouseReleaseEvent
                   (setControllerPosition (mkQPoint 170 90)
                      (resized 300 200 (Joystick_new 0 0)))) = 67) /\
  mouseReleaseEvent
    (setBackToZero false
       (setControllerPosition (mkQPoint 170 90)
          (resized 300 200 (Joystick_new 0 0)))) =
  setBackToZero false
    (setControllerPosition (mkQPoint 170 90)
       (resized 300 200 (Joystick_new 0 0))).
Proof.
  split.
  - apply (proj1 (release_returns_to_center
                    (setControllerPosition (mkQPoint 170 90)
                       (resized 300 200 (Joystick_new 0 0))))).
    reflexivity.
  - apply (proj2 (release_returns_to_center
                    (setBackToZero false
                       (setControllerPosition (mkQPoint 170 90)
                          (resized 300 200 (Joystick_new 0 0)))))).
    reflexivity.
Defined.

(** ** The mode operators *)

(** C9: with NoAxis = 0, XAxisOnly = 1, YAxisOnly = 2, AllAxis = 3:
    [NoAxis | AllAxis = AllAxis], [XAxisOnly & YAxisOnly = NoAxis],
    [XAxisOnly | YAxisOnly = AllAxis], and both operators always yield one of
    the four enumerators. *)
Theorem mode_operators_closed :
  int_of_mode NoAxis = 0 /\ int_of_mode XAxisOnly = 1 /\
  int_of_mode YAxisOnly = 2 /\ int_of_mode AllAxis = 3 /\
  operator_or NoAxis AllAxis = Some AllAxis /\
  operator_and XAxisOnly YAxisOnly = Some NoAxis /\
  operator_or XAxisOnly YAxisOnly = Some AllAxis /\
  (forall a b, exists m, operator_or a b = Some m) /\
  (forall a b, exists m, operator_and a b = Some m).
Proof.
  repeat split; intros a b; destruct a, b; eexists; reflexivity.
Qed.

(** ** Distances and the circle test *)

Lemma sum_squares_IZR (a b : Z) :
  (IZR a ^ 2 + IZR b ^ 2)%R = IZR (a ^ 2 + b ^ 2).
Proof.
  rewrite plus_IZR, !(pow_IZR _ 2). reflexivity.
Qed.

Lemma contains_true (px py r : Z) :
  contains px py r = true <-> px ^ 2 + py ^ 2 <= r ^ 2.
Proof. unfold contains. apply Z.leb_le. Qed.

Lemma contains_false (px py r : Z) :
  contains px py r = false <-> r ^ 2 < px ^ 2 + py ^ 2.
Proof. unfold contains. apply Z.leb_gt. Qed.

Lemma distance_nonneg (p : QPoint) : (0 <= distance p)%R.
Proof. unfold distance. apply sqrt_pos. Qed.

Lemma distance_sqr (p : QPoint) :
  (distance p * distance p = IZR (qx p ^ 2 + qy p ^ 2))%R.
Proof.
  unfold distance. rewrite sqrt_sqrt.
  - apply sum_squares_IZR.
  - nra.
Qed.

(** The distance test of the specification against the test on squares of
    the code. *)
Lemma distance_le_iff (p : QPoint) (r : Z) :
  (distance p <= IZR r)%R <-> 0 <= r /\ qx p ^ 2 + qy p ^ 2 <= r ^ 2.
Proof.
  pose proof (distance_nonneg p) as Hd.
  pose proof (distance_sqr p) as Hs.
  split.
  - intros Hle.
    assert (Hr : (0 <= IZR r)%R) by lra.
    split.
    + apply le_IZR. exact Hr.
    + apply le_IZR. rewrite <- Hs. change (r ^ 2) with (r ^ Z.of_nat 2).
      rewrite <- pow_IZR. nra.
  - intros [Hr Hle].
    apply IZR_le in Hr. apply IZR_le in Hle.
    rewrite <- Hs in Hle. change (r ^ 2) with (r ^ Z.of_nat 2) in Hle.
    rewrite <- pow_IZR in Hle. nra.
Qed.

Lemma distance_gt_iff (p : QPoint) (r : Z) :
  0 <= r ->
  ((IZR r < distance p)%R <-> contains (qx p) (qy p) r = false).
Proof.
  intros Hr. rewrite contains_false.
  pose proof (distance_le_iff p r) as Hiff.
  split.
  - intros Hlt.
    destruct (Z_lt_le_dec (r ^ 2) (qx p ^ 2 + qy p ^ 2)) as [H | H]; [exact H |].
    exfalso. apply (Rlt_not_le _ _ Hlt). apply Hiff. split; assumption.
  - intros Hlt. apply Rnot_le_lt. intros Hle.
    apply Hiff in Hle. lia.
Qed.

(** ** Pointer moves *)

Lemma mouseMoveEvent_other_buttons (A : DoubleArith) (buttons ex ey : Z) (j : Joystick) :
  buttons <> LeftButton -> mouseMoveEvent A buttons ex ey j = Returned j [].
Proof.
  intros Hb. unfold mouseMoveEvent.
  destruct (Z.eqb_spec buttons LeftButton) as [H | H]; [contradiction | reflexivity].
Qed.

Lemma handlePos_setControllerPosition (p : QPoint) (j : Joystick) :
  handlePos (setControllerPosition p j) =
  translateTopLeftToCenter p (mkQSize (width j) (height j)).
Proof. reflexivity. Qed.

Lemma AllAxis_inside_move (A : DoubleArith) (ex ey : Z) (j : Joystick) :
  m_mode j = AllAxis ->
  contains (qx (rawOffset ex ey j)) (qy (rawOffset ex ey j)) (travelRadius j) = true ->
  mouseMoveEvent A LeftButton ex ey j =
  Returned (setControllerPosition (mkQPoint ex ey) j)
           [valueChanged (int_to_char (qx (rawOffset ex ey j)))
                         (int_to_char (qy (rawOffset ex ey j)))].
Proof.
  intros Hmode Hin. unfold mouseMoveEvent. simpl negb. cbv iota.
  rewrite Hmode. cbv zeta.
  unfold rawOffset, translateTopLeftToCenter, travelRadius in *.
  simpl qx in *. simpl qy in *. simpl size_width in *. simpl size_height in *.
  rewrite Hin. reflexivity.
Qed.

(** C2: with both axes allowed, a pointer offset whose distance from the
    centre is at most the travel radius puts the handle exactly at that
    offset (positions relative to the widget centre). *)
Theorem inside_circle_follows_pointer (A : DoubleArith) (ex ey : Z) (j : Joystick)
  (Hmode : m_mode j = AllAxis)
  (Hin : (distance (rawOffset ex ey j) <= IZR (travelRadius j))%R) :
  exists j' out,
    mouseMoveEvent A LeftButton ex ey j = Returned j' out /\
    handlePos j' = rawOffset ex ey j.
Proof.
  apply distance_le_iff in Hin. destruct Hin as [_ Hin].
  apply contains_true in Hin.
  eexists. eexists. split.
  - apply (AllAxis_inside_move A); assumption.
  - reflexivity.
Qed.

Lemma inside_circle_follows_pointer_witness :
  exists j' out,
    mouseMoveEvent exactArith LeftButton 180 90 (resized 300 200 (Joystick_new 0 0)) =
      Returned j' out /\
    handlePos j' = mkQPoint 30 (-10).
Proof.
  apply ((inside_circle_follows_pointer exactArith) 180 90 (resized 300 200 (Joystick_new 0 0))).
  - reflexivity.
  - apply distance_le_iff. vm_compute. split; discriminate.
Defined.

(** ** Single-axis modes *)

Lemma clampAxis_spec (v r : Z) :
  (- r < v < r -> clampAxis v r = v) /\
  (~ (- r < v < r) -> 0 < v -> clampAxis v r = r) /\
  (~ (- r < v < r) -> v <= 0 -> clampAxis v r = - r).
Proof.
  unfold clampAxis.
  destruct (Z.ltb_spec v r), (Z.ltb_spec (- r) v), (Z.ltb_spec 0 v);
    simpl; repeat split; intros; try reflexivity; lia.
Qed.

Lemma XAxisOnly_move (A : DoubleArith) (ex ey : Z) (j : Joystick) :
  m_mode j = XAxisOnly ->
  exists j' out,
    mouseMoveEvent A LeftButton ex ey j = Returned j' out /\
    width j' = width j /\ height j' = height j /\
    qy (m_controllerPosition j') = qy (m_controllerPosition j) /\
    qx (handlePos j') = clampAxis (qx (rawOffset ex ey j)) (travelRadius j).
Proof.
  intros Hmode. unfold mouseMoveEvent. simpl negb. cbv iota.
  rewrite Hmode. cbv zeta.
  unfold clampAxis, rawOffset, translateTopLeftToCenter, travelRadius.
  simpl qx. simpl size_width.
  destruct ((ex - width j ÷ 2 <? radius (m_joystick j)) &&
            (- radius (m_joystick j) <? ex - width j ÷ 2)).
  - eexists; eexists; split; [reflexivity |]. repeat split.
  - destruct (0 <? ex - width j ÷ 2);
      (eexists; eexists; split; [reflexivity |]);
      repeat split; unfold handlePos, translateTopLeftToCenter; simpl; lia.
Qed.

Lemma YAxisOnly_move (A : DoubleArith) (ex ey : Z) (j : Joystick) :
  m_mode j = YAxisOnly ->
  exists j' out,
    mouseMoveEvent A LeftButton ex ey j = Returned j' out /\
    width j' = width j /\ height j' = height j /\
    qx (m_controllerPosition j') = qx (m_controllerPosition j) /\
    qy (handlePos j') = clampAxis (qy (rawOffset ex ey j)) (travelRadius j).
Proof.
  intros Hmode. unfold mouseMoveEvent. simpl negb. cbv iota.
  rewrite Hmode. cbv zeta.
  unfold clampAxis, rawOffset, translateTopLeftToCenter, travelRadius.
  simpl qy. simpl size_height.
  destruct ((ey - height j ÷ 2 <? radius (m_joystick j)) &&
            (- radius (m_joystick j) <? ey - height j ÷ 2)).
  - eexists; eexists; split; [reflexivity |]. repeat split.
  - destruct (0 <? ey - height j ÷ 2);
      (eexists; eexists; split; [reflexivity |]);
      repeat split; unfold handlePos, translateTopLeftToCenter; simpl; lia.
Qed.

(** C3, as the code has it: a move in mode XAxisOnly leaves the handle's Y
    coordinate as it was (so it is 0 when the handle was on the horizontal
    axis through the centre, as after a resize or a return to centre), and
    sets X to the pointer's X offset when that lies strictly between
    [- travelRadius] and [travelRadius], to [travelRadius] when it does not
    and is positive, to [- travelRadius] otherwise.  Mode YAxisOnly is the
    same with the axes exchanged.  With travel radius 50 and the handle at
    rest, the offset (-80, 30) gives the handle (-50, 0). *)
Theorem single_axis_move (A : DoubleArith) (ex ey : Z) (j : Joystick) :
  let p := rawOffset ex ey j in
  let r := travelRadius j in
  (m_mode j = XAxisOnly ->
   exists j' out,
     mouseMoveEvent A LeftButton ex ey j = Returned j' out /\
     qy (handlePos j') = qy (handlePos j) /\
     (- r < qx p < r -> qx (handlePos j') = qx p) /\
     (~ (- r < qx p < r) -> 0 < qx p -> qx (handlePos j') = r) /\
     (~ (- r < qx p < r) -> qx p <= 0 -> qx (handlePos j') = - r)) /\
  (m_mode j = YAxisOnly ->
   exists j' out,
     mouseMoveEvent A LeftButton ex ey j = Returned j' out /\
     qx (handlePos j') = qx (handlePos j) /\
     (- r < qy p < r -> qy (handlePos j') = qy p) /\
     (~ (- r < qy p < r) -> 0 < qy p -> qy (handlePos j') = r) /\
     (~ (- r < qy p < r) -> qy p <= 0 -> qy (handlePos j') = - r)) /\
  (exists j' out,
     mouseMoveEvent A LeftButton (-5) 105
       (setMode XAxisOnly (resized 150 150 j)) = Returned j' out /\
     travelRadius (setMode XAxisOnly (resized 150 150 j)) = 50 /\
     rawOffset (-5) 105 (setMode XAxisOnly (resized 150 150 j)) = mkQPoint (-80) 30 /\
     handlePos j' = mkQPoint (-50) 0).
Proof.
  intros p r. split; [| split].
  - intros Hmode.
    destruct ((XAxisOnly_move A) ex ey j Hmode) as (j' & out & Hev & Hw & Hh & Hy & Hx).
    exists j', out. split; [exact Hev |].
    split.
    + unfold handlePos, translateTopLeftToCenter. simpl. rewrite Hy, Hh. reflexivity.
    + rewrite Hx. apply clampAxis_spec.
  - intros Hmode.
    destruct ((YAxisOnly_move A) ex ey j Hmode) as (j' & out & Hev & Hw & Hh & Hy & Hx).
    exists j', out. split; [exact Hev |].
    split.
    + unfold handlePos, translateTopLeftToCenter. simpl. rewrite Hy, Hw. reflexivity.
    + rewrite Hx. apply clampAxis_spec.
  - eexists; eexists. split; [reflexivity |]. repeat split.
Qed.

Lemma single_axis_move_witness :
  (exists j' out,
     mouseMoveEvent exactArith LeftButton 30 400
       (setMode XAxisOnly (resized 300 200 (Joystick_new 0 0))) = Returned j' out /\
     handlePos j' = mkQPoint (-67) 0) /\
  (exists j' out,
     mouseMoveEvent exactArith LeftButton 30 120
       (setMode YAxisOnly (resized 300 200 (Joystick_new 0 0))) = Returned j' out /\
     handlePos j' = mkQPoint 0 20).
Proof.
  pose proof ((single_axis_move exactArith) 30 400
                (setMode XAxisOnly (resized 300 200 (Joystick_new 0 0)))) as HX.
  pose proof ((single_axis_move exactArith) 30 120
                (setMode YAxisOnly (resized 300 200 (Joystick_new 0 0)))) as HY.
  cbv zeta in HX, HY.
  destruct HX as [HX _]. destruct HY as [_ [HY _]].
  specialize (HX eq_refl). specialize (HY eq_refl).
  destruct HX as (j1 & o1 & E1 & _ & _ & _ & _).
  destruct HY as (j2 & o2 & E2 & _ & _ & _ & _).
  split.
  - exists j1, o1. split; [exact E1 |].
    vm_compute in E1. injection E1 as <- _. reflexivity.
  - exists j2, o2. split; [exact E2 |].
    vm_compute in E2. injection E2 as <- _. reflexivity.
Defined.

(** C3, as stated, fails: with return-to-centre disabled the handle is
    dragged to (10, 20) with both axes allowed and released, the mode is then
    set to XAxisOnly, and the next move, to the offset (-80, 30), leaves the
    handle at Y = 20, not 0. *)
Lemma single_axis_keeps_other_coordinate :
  handlePos (setBackToZero false (resized 150 150 (Joystick_new 0 0))) =
    mkQPoint 0 0 /\
  forall A : DoubleArith,
  exists j1 o1 j2 o2,
    mouseMoveEvent A LeftButton 85 95
      (setBackToZero false (resized 150 150 (Joystick_new 0 0))) =
      Returned j1 o1 /\
    handlePos (mouseReleaseEvent j1) = mkQPoint 10 20 /\
    m_mode (setMode XAxisOnly (mouseReleaseEvent j1)) = XAxisOnly /\
    travelRadius (setMode XAxisOnly (mouseReleaseEvent j1)) = 50 /\
    rawOffset (-5) 105 (setMode XAxisOnly (mouseReleaseEvent j1)) =
      mkQPoint (-80) 30 /\
    mouseMoveEvent A LeftButton (-5) 105
      (setMode XAxisOnly (mouseReleaseEvent j1)) = Returned j2 o2 /\
    handlePos j2 = mkQPoint (-50) 20 /\
    qy (handlePos j2) <> 0.
Proof.
  split; [reflexivity |]. intros A.
  do 4 eexists.
  split; [reflexivity |].
  split; [reflexivity |].
  split; [reflexivity |].
  split; [reflexivity |].
  split; [reflexivity |].
  split; [reflexivity |].
  split; [reflexivity |].
  discriminate.
Qed.

(** ** No axis allowed *)

Lemma NoAxis_move (A : DoubleArith) (buttons ex ey : Z) (j : Joystick) :
  m_mode j = NoAxis ->
  mouseMoveEvent A buttons ex ey j =
  if buttons =? LeftButton then Terminated else Returned j [].
Proof.
  intros Hmode. unfold mouseMoveEvent.
  destruct (buttons =? LeftButton); simpl; [rewrite Hmode |]; reflexivity.
Qed.

(** X15: in mode NoAxis a run of pointer moves never changes the state: it
    returns, with the state as it was and nothing emitted, when no event has
    exactly the left button held, and ends the program otherwise. *)
Lemma NoAxis_moves_never_move_handle (A : DoubleArith) (evs : list (Z * Z * Z)) (j : Joystick)
  (Hmode : m_mode j = NoAxis) :
  mouseMoves A evs j =
    (if existsb holdsLeftButton evs then Terminated else Returned j []) /\
  (forall j' out, mouseMoves A evs j = Returned j' out ->
                  j' = j /\ handlePos j' = handlePos j /\ out = []).
Proof.
  assert (Hrun : mouseMoves A evs j =
                 if existsb holdsLeftButton evs then Terminated else Returned j []).
  { induction evs as [| [[buttons ex] ey] rest IH]; [reflexivity |].
    simpl. rewrite ((NoAxis_move A) buttons ex ey j Hmode).
    destruct (buttons =? LeftButton); simpl; [reflexivity |].
    rewrite IH. destruct (existsb holdsLeftButton rest); reflexivity. }
  split; [exact Hrun |].
  intros j' out Hret. rewrite Hrun in Hret.
  destruct (existsb holdsLeftButton evs); [discriminate |].
  injection Hret as <- <-. repeat split.
Qed.

(** C4: in mode NoAxis a pointer move must leave the handle where it was
    and return.  The handler does not: NoAxis has no case of its own in the
    switch, so a move with the left button held reaches [default: throw;]
    and the program is terminated; only moves without the left button held
    return, with the state as it was. *)
Theorem NoAxis_left_drag_terminates (A : DoubleArith) :
  m_mode (setMode NoAxis (resized 300 200 (Joystick_new 0 0))) = NoAxis /\
  mouseMoveEvent A LeftButton 180 90
    (setMode NoAxis (resized 300 200 (Joystick_new 0 0))) = Terminated /\
  ~ (exists j' out,
       mouseMoves A [(LeftButton, 180, 90); (LeftButton, 10, 20)]
         (setMode NoAxis (resized 300 200 (Joystick_new 0 0))) = Returned j' out).
Proof.
  split; [reflexivity |]. split; [reflexivity |].
  intros (j' & out & H). discriminate H.
Qed.

(** ** The reported values *)

Lemma AllAxis_move (A : DoubleArith) (ex ey : Z) (j : Joystick) :
  m_mode j = AllAxis ->
  exists p,
    mouseMoveEvent A LeftButton ex ey j =
    Returned (setControllerPosition p j)
             [valueChanged (int_to_char (qx (rawOffset ex ey j)))
                           (int_to_char (qy (rawOffset ex ey j)))].
Proof.
  intros Hmode. unfold mouseMoveEvent. simpl negb. cbv iota.
  rewrite Hmode. cbv zeta.
  unfold rawOffset, translateTopLeftToCenter. simpl qx. simpl qy.
  simpl size_width. simpl size_height.
  destruct (contains (ex - width j ÷ 2) (ey - height j ÷ 2) (radius (m_joystick j)));
    eexists; reflexivity.
Qed.

(** C5, as the code has it: with both axes allowed, a move emits exactly one
    [valueChanged], whose arguments are the recentred pointer offsets
    converted to [char]: they are never clamped to the travel radius, lie in
    [-128, 127], differ from the offsets by a multiple of 256, and are the
    offsets themselves when these fit in a [char]. *)
Theorem valueChanged_reports_offsets_as_char (A : DoubleArith) (ex ey : Z) (j : Joystick)
  (Hmode : m_mode j = AllAxis) :
  let p := rawOffset ex ey j in
  exists j' rx ry,
    mouseMoveEvent A LeftButton ex ey j = Returned j' [valueChanged rx ry] /\
    rx = int_to_char (qx p) /\ ry = int_to_char (qy p) /\
    (-128 <= rx <= 127 /\ exists k, rx = qx p + 256 * k) /\
    (-128 <= ry <= 127 /\ exists k, ry = qy p + 256 * k) /\
    (-128 <= qx p <= 127 -> rx = qx p) /\
    (-128 <= qy p <= 127 -> ry = qy p).
Proof.
  intros p. destruct ((AllAxis_move A) ex ey j Hmode) as [q Hq].
  exists (setControllerPosition q j), (int_to_char (qx p)), (int_to_char (qy p)).
  split; [exact Hq |].
  split; [reflexivity |]. split; [reflexivity |].
  split; [split; [apply int_to_char_range | apply int_to_char_congr] |].
  split; [split; [apply int_to_char_range | apply int_to_char_congr] |].
  split; apply int_to_char_fits.
Qed.

Lemma valueChanged_reports_offsets_as_char_witness :
  exists j' rx ry,
    mouseMoveEvent exactArith LeftButton 175 35 (resized 150 150 (Joystick_new 0 0)) =
      Returned j' [valueChanged rx ry] /\
    rx = 100 /\ ry = -40.
Proof.
  destruct ((valueChanged_reports_offsets_as_char exactArith) 175 35
              (resized 150 150 (Joystick_new 0 0)) eq_refl)
    as (j' & rx & ry & Hev & Hx & Hy & _).
  exists j', rx, ry. split; [exact Hev |]. split; [exact Hx | exact Hy].
Defined.

(** C5, as stated, fails: with travel radius 50 and the pointer at the
    offset (300, 0) the notification carries 44, not 300. *)
Lemma valueChanged_narrows_offsets :
  travelRadius (resized 150 150 (Joystick_new 0 0)) = 50 /\
  m_mode (resized 150 150 (Joystick_new 0 0)) = AllAxis /\
  rawOffset 375 75 (resized 150 150 (Joystick_new 0 0)) = mkQPoint 300 0 /\
  forall A : DoubleArith,
  exists j',
    mouseMoveEvent A LeftButton 375 75 (resized 150 150 (Joystick_new 0 0)) =
      Returned j' [valueChanged 44 0] /\
    valueChanged 44 0 <> valueChanged 300 0.
Proof.
  split; [reflexivity |]. split; [reflexivity |]. split; [reflexivity |].
  intros A.
  destruct ((AllAxis_move A) 375 75 (resized 150 150 (Joystick_new 0 0)) eq_refl)
    as [q Hq].
  exists (setControllerPosition q (resized 150 150 (Joystick_new 0 0))).
  split; [exact Hq | discriminate].
Qed.

(** ** The clamping branch *)

Lemma unit_vector (vx vy d : R) :
  (0 < d)%R -> (d * d = vx * vx + vy * vy)%R ->
  ((vx / d) * (vx / d) + (vy / d) * (vy / d) = 1)%R.
Proof.
  intros d_pos d_sqr.
  replace ((vx / d) * (vx / d) + (vy / d) * (vy / d))%R
    with ((vx * vx + vy * vy) / (d * d))%R by (field; lra).
  rewrite <- d_sqr. field. lra.
Qed.

Lemma double_to_int_IZR (n : Z) : double_to_int (IZR n) = n.
Proof.
  unfold double_to_int. destruct (Rle_dec 0 (IZR n)) as [H | H].
  - symmetry. apply Int_part_spec. lra.
  - rewrite <- opp_IZR.
    assert (E : (- n) = Int_part (IZR (- n))) by (apply Int_part_spec; lra).
    lia.
Qed.

Lemma double_to_int_error (t : R) :
  (Rabs (IZR (double_to_int t) - t) < 1)%R.
Proof.
  unfold double_to_int. destruct (Rle_dec 0 t) as [H | H].
  - destruct (base_Int_part t) as [H1 H2]. apply Rabs_def1; lra.
  - destruct (base_Int_part (- t)) as [H1 H2].
    rewrite opp_IZR. apply Rabs_def1; lra.
Qed.

Lemma double_to_int_floor (t : R) (k : Z) :
  (0 <= t)%R -> (IZR k <= t < IZR k + 1)%R -> double_to_int t = k.
Proof.
  intros Ht Hk. unfold double_to_int.
  destruct (Rle_dec 0 t) as [_ | H]; [| contradiction].
  symmetry. apply Int_part_spec. lra.
Qed.

Lemma double_to_int_between (t : R) (a b : Z) :
  (IZR a <= t <= IZR b)%R -> a <= double_to_int t <= b.
Proof.
  intros [Ha Hb]. unfold double_to_int.
  destruct (Rle_dec 0 t) as [H | H].
  - destruct (base_Int_part t) as [H1 H2]. split.
    + apply Z.lt_succ_r. apply lt_IZR. rewrite succ_IZR. lra.
    + apply le_IZR. lra.
  - destruct (base_Int_part (- t)) as [H1 H2]. split.
    + apply le_IZR. rewrite opp_IZR. lra.
    + apply Z.lt_succ_r. apply lt_IZR. rewrite succ_IZR, opp_IZR. lra.
Qed.

Lemma outside_distance_pos (p : QPoint) (r : Z) :
  contains (qx p) (qy p) r = false -> (0 < distance p)%R.
Proof.
  intros Hout. apply contains_false in Hout.
  unfold distance. apply sqrt_lt_R0. rewrite sum_squares_IZR.
  apply IZR_lt. pose proof (Z.pow_2_r r). nia.
Qed.

Lemma outside_not_centre (px py r : Z) :
  contains px py r = false -> 1 <= px ^ 2 + py ^ 2.
Proof.
  intros Hout. apply contains_false in Hout. pose proof (Z.pow_2_r r). nia.
Qed.

Lemma distance_sqr_R (p : QPoint) :
  (distance p * distance p = IZR (qx p) * IZR (qx p) + IZR (qy p) * IZR (qy p))%R.
Proof.
  unfold distance. rewrite sqrt_sqrt; nra.
Qed.

Lemma on_circle (vx vy d r : R) :
  (0 < d)%R -> (d * d = vx * vx + vy * vy)%R ->
  ((r * (vx / d)) * (r * (vx / d)) + (r * (vy / d)) * (r * (vy / d)) = r * r)%R.
Proof.
  intros Hd Hs. pose proof (unit_vector vx vy d Hd Hs) as Hu.
  replace ((r * (vx / d)) * (r * (vx / d)) + (r * (vy / d)) * (r * (vy / d)))%R
    with (r * r * ((vx / d) * (vx / d) + (vy / d) * (vy / d)))%R by ring.
  rewrite Hu. ring.
Qed.

(** The state after a move that takes the clamping branch. *)
Lemma AllAxis_outside_move (A : DoubleArith) (ex ey : Z) (j : Joystick) :
  m_mode j = AllAxis ->
  contains (qx (rawOffset ex ey j)) (qy (rawOffset ex ey j)) (travelRadius j) = false ->
  let p := rawOffset ex ey j in
  let angle := clampAngle A (qx p) (qy p) in
  mouseMoveEvent A LeftButton ex ey j =
  Returned
    (setControllerPosition
       (mkQPoint
          (double_to_int
             (clampCoordinate A (travelRadius j) (cosd A angle) (width j ÷ 2)))
          (double_to_int
             (clampCoordinate A (travelRadius j) (sind A angle) (height j ÷ 2))))
       j)
    [valueChanged (int_to_char (qx p)) (int_to_char (qy p))].
Proof.
  intros Hmode Hout p angle.
  unfold mouseMoveEvent. simpl negb. cbv iota. rewrite Hmode. cbv zeta.
  unfold angle, p, rawOffset, translateTopLeftToCenter, travelRadius in *.
  simpl qx in *. simpl qy in *. simpl size_width in *. simpl size_height in *.
  rewrite Hout. reflexivity.
Qed.

(** *** The laws of double arithmetic *)

Lemma exactArith_laws : DoubleLaws exactArith.
Proof.
  assert (Hu : (0 <= unit_roundoff)%R) by (unfold unit_roundoff; lra).
  assert (Hm : (0 <= libm_error)%R) by (unfold libm_error; lra).
  assert (Hz : forall t : R, (Rabs (t - t) <= libm_error)%R).
  { intros t. replace (t - t)%R with 0%R by ring. rewrite Rabs_R0. exact Hm. }
  constructor; simpl.
  - reflexivity.
  - intros s t H. exact H.
  - intros t. replace (t - t)%R with 0%R by ring. rewrite Rabs_R0.
    apply Rmult_le_pos; [exact Hu | apply Rabs_pos].
  - apply Hz.
  - apply acos_1.
  - apply cos_0.
  - apply sin_0.
  - intros r _. apply Hz.
  - intros a _. apply Hz.
  - intros a _. apply Hz.
  - apply COS_bound.
  - apply SIN_bound.
Qed.

Lemma Rabs_le_inv (a b : R) : (Rabs a <= b)%R -> (- b <= a <= b)%R.
Proof. unfold Rabs. destruct (Rcase_abs a); lra. Qed.

Lemma sin_abs_le (t : R) : (Rabs (sin t) <= Rabs t)%R.
Proof.
  assert (Hpos : forall s, (0 < s)%R -> (- s <= sin s <= s)%R).
  { intros s Hs. split.
    - destruct (Rle_dec s PI) as [H | H].
      + pose proof (sin_ge_0 s ltac:(lra) H). lra.
      + pose proof (SIN_bound s). pose proof PI2_3_2. lra.
    - left. apply sin_lt_x. exact Hs. }
  destruct (Rtotal_order t 0) as [H | [-> | H]].
  - specialize (Hpos (- t)%R ltac:(lra)). rewrite sin_neg in Hpos.
    rewrite (Rabs_left1 t) by lra. apply Rabs_le. lra.
  - rewrite sin_0, Rabs_R0. lra.
  - specialize (Hpos t H). rewrite (Rabs_right t) by lra. apply Rabs_le. lra.
Qed.

Lemma cos_lipschitz (a b : R) : (Rabs (cos a - cos b) <= Rabs (a - b))%R.
Proof.
  rewrite form2, !Rabs_mult.
  pose proof (sin_abs_le ((a - b) / 2)) as H1.
  pose proof (SIN_bound ((a + b) / 2)) as H2.
  assert (H3 : (Rabs (sin ((a + b) / 2)) <= 1)%R) by (apply Rabs_le; lra).
  replace (Rabs (-2)) with 2%R by (rewrite Rabs_left1; lra).
  assert (H4 : Rabs ((a - b) / 2) = (Rabs (a - b) / 2)%R).
  { unfold Rdiv. rewrite Rabs_mult, (Rabs_right (/ 2)) by lra. reflexivity. }
  rewrite H4 in H1.
  pose proof (Rabs_pos (sin ((a - b) / 2))).
  pose proof (Rabs_pos (sin ((a + b) / 2))).
  nra.
Qed.

Lemma sin_lipschitz (a b : R) : (Rabs (sin a - sin b) <= Rabs (a - b))%R.
Proof.
  rewrite form4, !Rabs_mult.
  pose proof (sin_abs_le ((a - b) / 2)) as H1.
  pose proof (COS_bound ((a + b) / 2)) as H2.
  assert (H3 : (Rabs (cos ((a + b) / 2)) <= 1)%R) by (apply Rabs_le; lra).
  replace (Rabs 2) with 2%R by (rewrite Rabs_right; lra).
  assert (H4 : Rabs ((a - b) / 2) = (Rabs (a - b) / 2)%R).
  { unfold Rdiv. rewrite Rabs_mult, (Rabs_right (/ 2)) by lra. reflexivity. }
  rewrite H4 in H1.
  pose proof (Rabs_pos (sin ((a - b) / 2))).
  pose proof (Rabs_pos (cos ((a + b) / 2))).
  nra.
Qed.

Lemma sqrt_diff_le (a b : R) :
  (0 <= b <= a)%R -> (sqrt a - sqrt b <= sqrt (a - b))%R.
Proof.
  intros [Hb Hab].
  pose proof (sqrt_pos a) as Ha'. pose proof (sqrt_pos b) as Hb'.
  pose proof (sqrt_sqrt a ltac:(lra)) as Sa.
  pose proof (sqrt_sqrt b Hb) as Sb.
  assert (Hle : (sqrt b <= sqrt a)%R) by (apply sqrt_le_1_alt; lra).
  rewrite <- (sqrt_square (sqrt a - sqrt b)) by lra.
  apply sqrt_le_1_alt. nra.
Qed.

Lemma sqrt_diff_abs (a b : R) :
  (0 <= a)%R -> (0 <= b)%R ->
  (Rabs (sqrt a - sqrt b) <= sqrt (Rabs (a - b)))%R.
Proof.
  intros Ha Hb. destruct (Rle_dec b a) as [H | H].
  - rewrite (Rabs_right (a - b)) by lra.
    pose proof (sqrt_diff_le a b ltac:(lra)).
    assert (sqrt b <= sqrt a)%R by (apply sqrt_le_1_alt; lra).
    rewrite Rabs_right by lra. lra.
  - rewrite (Rabs_left1 (a - b)) by lra.
    replace (- (a - b))%R with (b - a)%R by ring.
    pose proof (sqrt_diff_le b a ltac:(lra)).
    assert (sqrt a <= sqrt b)%R by (apply sqrt_le_1_alt; lra).
    rewrite Rabs_left1 by lra. lra.
Qed.

Lemma unit_roundoff_small : (0 < unit_roundoff <= / 1000000)%R.
Proof. unfold unit_roundoff. lra. Qed.

Lemma libm_error_small : (0 < libm_error <= / 1000000)%R.
Proof. unfold libm_error. lra. Qed.

Lemma sqrt_four_roundoff : (sqrt (4 * unit_roundoff) <= sqrt_slack)%R.
Proof.
  unfold sqrt_slack, unit_roundoff.
  rewrite <- (sqrt_square (/ 33554432)) by lra.
  apply sqrt_le_1_alt. lra.
Qed.

(** *** The error of the clamped coordinates *)

Section Rounding.

Open Scope R_scope.

Variable A : DoubleArith.
Hypothesis HA : DoubleLaws A.

Lemma fl_within (t b : R) :
  Rabs t <= b -> - (unit_roundoff * b) <= fl A t - t <= unit_roundoff * b.
Proof.
  intros Hb. apply Rabs_le_inv.
  pose proof (fl_error A HA t) as He.
  pose proof unit_roundoff_small. nra.
Qed.

Lemma fl_between (a b : Z) (t : R) :
  IZR a <= t <= IZR b -> IZR a <= fl A t <= IZR b.
Proof.
  intros [Ha Hb]. split.
  - rewrite <- (fl_int A HA a). apply (fl_mono A HA). exact Ha.
  - rewrite <- (fl_int A HA b). apply (fl_mono A HA). exact Hb.
Qed.

Lemma clampRadius_fl_distance (x y : Z) :
  clampRadius A x y = fl A (distance (mkQPoint x y)).
Proof.
  unfold clampRadius, distance. simpl qx. simpl qy.
  rewrite !(pow_IZR _ 2), !(fl_int A HA), <- plus_IZR, (fl_int A HA), plus_IZR.
  reflexivity.
Qed.

Variables x y : Z.
Hypothesis offset_not_centre : (1 <= x ^ 2 + y ^ 2)%Z.

Local Abbreviation d := (distance (mkQPoint x y)).

Lemma distance_facts :
  d * d = IZR x * IZR x + IZR y * IZR y /\ 1 <= d /\
  - d <= IZR x <= d /\ - d <= IZR y <= d.
Proof.
  assert (Hsq : d * d = IZR x * IZR x + IZR y * IZR y).
  { unfold distance. simpl qx. simpl qy. rewrite sqrt_sqrt; nra. }
  assert (Hd0 : 0 <= d) by apply sqrt_pos.
  assert (Hn : 1 <= IZR x * IZR x + IZR y * IZR y).
  { rewrite <- !mult_IZR, <- plus_IZR. apply IZR_le.
    rewrite !Z.pow_2_r in offset_not_centre. exact offset_not_centre. }
  repeat split; nra.
Qed.

Lemma clampRadius_facts :
  1 <= clampRadius A x y /\
  - clampRadius A x y <= IZR x <= clampRadius A x y /\
  - (unit_roundoff * d) <= clampRadius A x y - d <= unit_roundoff * d.
Proof.
  destruct distance_facts as (Hsq & Hd1 & Hx & Hy).
  rewrite clampRadius_fl_distance.
  assert (H1 : 1 <= fl A d).
  { rewrite <- (fl_int A HA 1). apply (fl_mono A HA). exact Hd1. }
  assert (Habs : IZR (Z.abs x) <= fl A d).
  { rewrite <- (fl_int A HA (Z.abs x)). apply (fl_mono A HA).
    rewrite abs_IZR. apply Rabs_le. lra. }
  rewrite abs_IZR in Habs. apply Rabs_le_inv in Habs.
  split; [exact H1 |]. split; [lra |].
  apply fl_within. rewrite Rabs_right; lra.
Qed.

(** The ratio handed to [acos] and the exact ratio. *)
Lemma clampRatio_facts :
  -1 <= clampRatio A x y <= 1 /\
  - (2 * unit_roundoff) <= clampRatio A x y - IZR x / d <= 2 * unit_roundoff.
Proof.
  destruct distance_facts as (Hsq & Hd1 & Hx & Hy).
  destruct clampRadius_facts as (Hr1 & Hrx & Hre).
  pose proof unit_roundoff_small as Hu.
  unfold clampRatio. set (rho := clampRadius A x y) in *.
  assert (Hq : IZR x / rho * rho = IZR x) by (field; lra).
  assert (Hr : IZR x / d * d = IZR x) by (field; lra).
  set (q := IZR x / rho) in *. set (r := IZR x / d) in *.
  assert (Hq1 : -1 <= q <= 1).
  { split; apply Rmult_le_reg_r with rho; nra. }
  split.
  - apply (fl_between (-1) 1). exact Hq1.
  - assert (Hqr : - unit_roundoff <= q - r <= unit_roundoff).
    { assert (E : (q - r) * d = q * (d - rho)) by nra.
      split; apply Rmult_le_reg_r with d; nra. }
    pose proof (fl_within q 1 ltac:(apply Rabs_le; lra)) as Hf.
    lra.
Qed.


Local Abbreviation alpha := (acos (clampRatio A x y)).

(** The angle of the handler is the exact angle of the rounded ratio, up
    to a small phase error and a turn. *)
Lemma clampAngle_phase :
  exists e : R,
    Rabs e <= 3 * libm_error + 40 * unit_roundoff /\
    Rabs (clampAngle A x y) <= 32 /\
    clampAngle A x y =
      (if 0 <? y then alpha - 2 * PI + e else - alpha + e).
Proof.
  destruct clampRatio_facts as (Hratio & _).
  pose proof (acosd_error A HA _ Hratio) as Hacos. apply Rabs_le_inv in Hacos.
  pose proof (acos_bound (clampRatio A x y)) as Halpha.
  pose proof unit_roundoff_small as Hu. pose proof libm_error_small as Hm.
  pose proof PI_4 as Hpi4. pose proof PI_RGT_0 as Hpi0.
  pose proof (M_PI_error A HA) as Hmpi. apply Rabs_le_inv in Hmpi.
  unfold clampAngle. cbv zeta.
  set (a' := acosd A (clampRatio A x y)) in *.
  destruct (0 <? y)%Z.
  - set (m0 := M_PI A - a').
    assert (Hm0 : Rabs m0 <= 5) by (apply Rabs_le; unfold m0; lra).
    pose proof (fl_within m0 5 Hm0) as H1.
    set (m1 := fl A m0) in *.
    assert (Hm1 : Rabs (m1 * 2) <= 12).
    { apply Rabs_le_inv in Hm0. apply Rabs_le. lra. }
    pose proof (fl_within (m1 * 2) 12 Hm1) as H2.
    set (m2 := fl A (m1 * 2)) in *.
    apply Rabs_le_inv in Hm1.
    assert (Hm2 : Rabs (a' + m2) <= 18) by (apply Rabs_le; lra).
    pose proof (fl_within (a' + m2) 18 Hm2) as H3.
    set (m3 := fl A (a' + m2)) in *.
    apply Rabs_le_inv in Hm2. apply Rabs_le_inv in Hm0.
    exists (- m3 - alpha + 2 * PI).
    split; [apply Rabs_le; unfold m0 in *; lra |].
    split; [rewrite Rabs_Ropp; apply Rabs_le; lra |].
    ring.
  - exists (alpha - a').
    split; [apply Rabs_le; lra |].
    split; [rewrite Rabs_Ropp; apply Rabs_le; lra |].
    ring.
Qed.

Lemma cos_clampAngle_near_ratio :
  Rabs (cos (clampAngle A x y) - clampRatio A x y) <= phase_error.
Proof.
  destruct clampAngle_phase as (e & He & _ & Hang).
  destruct clampRatio_facts as (Hratio & _).
  pose proof (cos_acos _ Hratio) as Hcos.
  rewrite Hang. clear Hang.
  set (alpha := acos (clampRatio A x y)) in *.
  rewrite <- Hcos.
  destruct (0 <? y)%Z.
  - replace (alpha - 2 * PI + e) with (- (- (alpha + e)) - 2 * INR 1 * PI)
      by (simpl; ring).
    unfold Rminus at 2.
    replace (- (- (alpha + e)) + - (2 * INR 1 * PI))
      with (alpha + e - 2 * INR 1 * PI) by ring.
    rewrite <- (cos_period (alpha + e - 2 * INR 1 * PI) 1).
    replace (alpha + e - 2 * INR 1 * PI + 2 * INR 1 * PI) with (alpha + e) by ring.
    eapply Rle_trans; [apply cos_lipschitz |].
    replace (alpha + e - alpha) with e by ring. exact He.
  - rewrite <- (cos_neg alpha).
    eapply Rle_trans; [apply cos_lipschitz |].
    replace (- alpha + e - - alpha) with e by ring. exact He.
Qed.

Lemma sin_acos_exact_ratio : sin (acos (IZR x / d)) = Rabs (IZR y) / d.
Proof.
  destruct distance_facts as (Hsq & Hd1 & Hx & Hy).
  assert (Hr : IZR x / d * d = IZR x) by (field; lra).
  assert (Hs : IZR y / d * d = IZR y) by (field; lra).
  set (r := IZR x / d) in *. set (s := IZR y / d) in *.
  assert (Hr1 : -1 <= r <= 1) by (split; apply Rmult_le_reg_r with d; nra).
  rewrite sin_acos by exact Hr1.
  assert (Hunit : r * r + s * s = 1).
  { apply Rmult_eq_reg_r with (d * d); [| nra].
    transitivity ((r * d) * (r * d) + (s * d) * (s * d)); [ring |].
    rewrite Hr, Hs. lra. }
  replace (1 - r²) with ((Rabs (IZR y) / d)²).
  - apply sqrt_Rsqr. apply Rmult_le_pos; [apply Rabs_pos |].
    left. apply Rinv_0_lt_compat. lra.
  - unfold Rsqr.
    replace (Rabs (IZR y) / d * (Rabs (IZR y) / d))
      with ((Rabs (IZR y) * Rabs (IZR y)) / (d * d)) by (field; lra).
    replace (Rabs (IZR y) * Rabs (IZR y)) with (IZR y * IZR y)
      by (unfold Rabs; destruct (Rcase_abs (IZR y)); ring).
    replace (IZR y * IZR y / (d * d)) with (s * s) by (unfold s; field; lra).
    lra.
Qed.

Lemma sin_alpha_near_exact :
  Rabs (sin alpha - Rabs (IZR y) / d) <= sqrt_slack.
Proof.
  destruct distance_facts as (Hsq & Hd1 & Hx & Hy).
  destruct clampRatio_facts as (Hratio & Herr).
  pose proof unit_roundoff_small as Hu.
  rewrite <- sin_acos_exact_ratio.
  assert (Hr : IZR x / d * d = IZR x) by (field; lra).
  set (r := IZR x / d) in *. set (q := clampRatio A x y) in *.
  assert (Hr1 : -1 <= r <= 1) by (split; apply Rmult_le_reg_r with d; nra).
  fold q. rewrite !sin_acos by assumption.
  unfold Rsqr.
  eapply Rle_trans; [apply sqrt_diff_abs; nra |].
  eapply Rle_trans; [| apply sqrt_four_roundoff].
  apply sqrt_le_1_alt. apply Rabs_le. nra.
Qed.

Lemma sin_clampAngle_near_exact :
  Rabs (sin (clampAngle A x y) - IZR y / d) <= phase_error + sqrt_slack.
Proof.
  destruct clampAngle_phase as (e & He & _ & Hang).
  destruct distance_facts as (Hsq & Hd1 & Hx & Hy).
  pose proof sin_alpha_near_exact as Hs. apply Rabs_le_inv in Hs.
  rewrite Hang.
  destruct (Z.ltb_spec 0 y) as [Hy0 | Hy0].
  - assert (Ey : Rabs (IZR y) / d = IZR y / d).
    { rewrite Rabs_right; [reflexivity |]. apply Rle_ge. apply IZR_le. lia. }
    rewrite Ey in Hs.
    replace (alpha - 2 * PI + e) with (alpha + e - 2 * INR 1 * PI) by (simpl; ring).
    rewrite <- (sin_period (alpha + e - 2 * INR 1 * PI) 1).
    replace (alpha + e - 2 * INR 1 * PI + 2 * INR 1 * PI) with (alpha + e) by ring.
    pose proof (sin_lipschitz (alpha + e) alpha) as Hl.
    replace (alpha + e - alpha) with e in Hl by ring.
    assert (Hle : Rabs (sin (alpha + e) - sin alpha) <= phase_error)
      by (eapply Rle_trans; [exact Hl | exact He]).
    apply Rabs_le_inv in Hle. apply Rabs_le. lra.
  - assert (Ey : Rabs (IZR y) / d = - (IZR y / d)).
    { rewrite Rabs_left1; [field; lra |]. apply IZR_le. exact Hy0. }
    rewrite Ey in Hs.
    pose proof (sin_lipschitz (- alpha + e) (- alpha)) as Hl.
    replace (- alpha + e - - alpha) with e in Hl by ring.
    rewrite (sin_neg alpha) in Hl.
    assert (Hle : Rabs (sin (- alpha + e) - - sin alpha) <= phase_error)
      by (eapply Rle_trans; [exact Hl | exact He]).
    apply Rabs_le_inv in Hle. apply Rabs_le. lra.
Qed.

Lemma clampCoordinate_near (jr c : Z) (dir target k : R) :
  (0 <= jr)%Z -> -1 <= dir <= 1 -> - k <= dir - target <= k ->
  Rabs (clampCoordinate A jr dir c - (IZR jr * target + IZR c))
  <= IZR jr * k + unit_roundoff * (2 * IZR jr + IZR (Z.abs c)).
Proof.
  intros Hjr Hdir Hk.
  pose proof (IZR_le _ _ Hjr) as Hj. simpl in Hj.
  pose proof unit_roundoff_small as Hu.
  assert (Hc : - IZR (Z.abs c) <= IZR c <= IZR (Z.abs c)).
  { rewrite abs_IZR. apply Rabs_le_inv. lra. }
  unfold clampCoordinate.
  assert (Hp : Rabs (IZR jr * dir) <= IZR jr) by (apply Rabs_le; nra).
  pose proof (fl_within _ _ Hp) as H1.
  apply Rabs_le_inv in Hp.
  set (p := fl A (IZR jr * dir)) in *.
  assert (Hb : - IZR jr <= p <= IZR jr).
  { rewrite <- opp_IZR. apply fl_between. rewrite opp_IZR. exact Hp. }
  assert (Hs : Rabs (p + IZR c) <= IZR jr + IZR (Z.abs c)) by (apply Rabs_le; lra).
  pose proof (fl_within _ _ Hs) as H2.
  apply Rabs_le. nra.
Qed.

Lemma clampCoordinate_between (jr c : Z) (dir : R) :
  (0 <= jr)%Z -> -1 <= dir <= 1 ->
  IZR (c - jr) <= clampCoordinate A jr dir c <= IZR (c + jr).
Proof.
  intros Hjr Hdir.
  pose proof (IZR_le _ _ Hjr) as Hj. simpl in Hj.
  unfold clampCoordinate.
  assert (Hb : - IZR jr <= fl A (IZR jr * dir) <= IZR jr).
  { rewrite <- opp_IZR. apply fl_between. rewrite opp_IZR. nra. }
  apply fl_between. rewrite minus_IZR, plus_IZR. lra.
Qed.

(** The two doubles of the clamping branch against the point of the
    circle. *)
Lemma clamped_doubles_near_circle (jr cx cy : Z) :
  (0 <= jr)%Z ->
  Rabs (clampCoordinate A jr (cosd A (clampAngle A x y)) cx
        - (IZR jr * (IZR x / d) + IZR cx)) <= clampTolerance jr cx /\
  Rabs (clampCoordinate A jr (sind A (clampAngle A x y)) cy
        - (IZR jr * (IZR y / d) + IZR cy)) <= clampTolerance jr cy.
Proof.
  intros Hjr.
  pose proof (IZR_le _ _ Hjr) as Hj. simpl in Hj.
  destruct clampAngle_phase as (e & _ & Hang & _).
  destruct clampRatio_facts as (_ & Hratio).
  pose proof cos_clampAngle_near_ratio as Hcos. apply Rabs_le_inv in Hcos.
  pose proof sin_clampAngle_near_exact as Hsin. apply Rabs_le_inv in Hsin.
  pose proof (cosd_error A HA _ Hang) as Hcd. apply Rabs_le_inv in Hcd.
  pose proof (sind_error A HA _ Hang) as Hsd. apply Rabs_le_inv in Hsd.
  pose proof (IZR_le _ _ (Z.abs_nonneg cx)) as Hax. simpl in Hax.
  pose proof (IZR_le _ _ (Z.abs_nonneg cy)) as Hay. simpl in Hay.
  split.
  - eapply Rle_trans.
    + apply (clampCoordinate_near jr cx _ (IZR x / d)
               (libm_error + phase_error + 2 * unit_roundoff) Hjr).
      * apply (cosd_bound A HA).
      * lra.
    + unfold clampTolerance, phase_error, libm_error, unit_roundoff. lra.
  - eapply Rle_trans.
    + apply (clampCoordinate_near jr cy _ (IZR y / d)
               (libm_error + phase_error + sqrt_slack) Hjr).
      * apply (sind_bound A HA).
      * lra.
    + unfold clampTolerance, phase_error, sqrt_slack, libm_error, unit_roundoff.
      lra.
Qed.

End Rounding.

(** C7: every geometric operation must be total over its documented input
    domain.  The pointer-move mapping is not: NoAxis is one of the four
    documented modes, [setMode] accepts it, and in that mode a left-button
    move reaches [default: throw;] for every pointer position, whatever the
    travel radius, so that the program is terminated (the defect of C4). *)
Theorem NoAxis_move_is_not_total (A : DoubleArith) :
  mode_of_int 0 = Some NoAxis /\
  mode (setMode NoAxis (resized 150 150 (Joystick_new 0 0))) = NoAxis /\
  0 <= travelRadius (setMode NoAxis (resized 150 150 (Joystick_new 0 0))) /\
  (forall ex ey,
      mouseMoveEvent A LeftButton ex ey
        (setMode NoAxis (resized 150 150 (Joystick_new 0 0))) = Terminated) /\
  (forall ex ey,
      ~ (exists j' out,
            mouseMoveEvent A LeftButton ex ey
              (setMode NoAxis (resized 150 150 (Joystick_new 0 0))) =
            Returned j' out)).
Proof.
  split; [reflexivity |]. split; [reflexivity |].
  split; [vm_compute; discriminate |].
  split.
  - intros ex ey. reflexivity.
  - intros ex ey (j' & out & H). discriminate H.
Qed.

(** X22: the clamping branch is entered only away from the centre, and
    there its doubles stay in the domain of the functions applied to them:
    the centre passes the circle test for every radius; when the test
    fails the pointer is not at the centre, the computed distance is at
    least 1, so the division is by no zero, and the computed ratio handed
    to [acos] lies in [[-1, 1]] also after rounding. *)
Theorem clamping_branch_arguments_in_domain (A : DoubleArith) (px py r : Z)
  (HA : DoubleLaws A) (Hout : contains px py r = false) :
  (forall r', contains 0 0 r' = true) /\
  mkQPoint px py <> mkQPoint 0 0 /\
  (1 <= clampRadius A px py)%R /\
  (-1 <= clampRatio A px py <= 1)%R.
Proof.
  assert (Hcentre : forall r', contains 0 0 r' = true).
  { intros r'. apply contains_true. pose proof (Z.pow_2_r r'). nia. }
  pose proof (outside_not_centre _ _ _ Hout) as Hn.
  split; [exact Hcentre |]. split; [| split].
  - intros E. injection E as -> ->. rewrite Hcentre in Hout. discriminate.
  - apply (clampRadius_facts A HA px py Hn).
  - apply (clampRatio_facts A HA px py Hn).
Qed.

Lemma clamping_branch_arguments_in_domain_witness :
  (1 <= clampRadius exactArith 100 100)%R /\
  (-1 <= clampRatio exactArith 100 100 <= 1)%R.
Proof.
  destruct (clamping_branch_arguments_in_domain exactArith 100 100 50
              exactArith_laws eq_refl) as (_ & _ & H1 & H2).
  split; [exact H1 | exact H2].
Defined.

(** C1, as the code has it: with both axes allowed, a travel radius of at
    least 0 and a pointer offset farther from the centre than the travel
    radius, the handle is put at the truncation to integer pixels of two
    doubles that approximate the point of the circle of radius
    [travelRadius] in the direction of the offset (in widget coordinates),
    each within the rounding error [clampTolerance] of the computation.
    Each coordinate of the handle is therefore less than one pixel plus
    that rounding error away from the point of the circle: the handle need
    not lie on the circle, and may miss by a pixel a point of the circle
    that has integer coordinates.  With travel radius 50 the offset (100, 0)
    gives the handle (50, 0). *)
Theorem outside_circle_clamps_to_pixel (A : DoubleArith) (ex ey : Z) (j : Joystick)
  (HA : DoubleLaws A)
  (Hmode : m_mode j = AllAxis)
  (Hr : 0 <= travelRadius j)
  (Hout : (IZR (travelRadius j) < distance (rawOffset ex ey j))%R) :
  let p := rawOffset ex ey j in
  let r := IZR (travelRadius j) in
  let cx := (r * (IZR (qx p) / distance p))%R in
  let cy := (r * (IZR (qy p) / distance p))%R in
  (cx * cx + cy * cy = r * r)%R /\
  (exists j' out sx sy,
     mouseMoveEvent A LeftButton ex ey j = Returned j' out /\
     m_controllerPosition j' = mkQPoint (double_to_int sx) (double_to_int sy) /\
     (Rabs (sx - (cx + IZR (width j ÷ 2)))
      <= clampTolerance (travelRadius j) (width j ÷ 2))%R /\
     (Rabs (sy - (cy + IZR (height j ÷ 2)))
      <= clampTolerance (travelRadius j) (height j ÷ 2))%R /\
     (Rabs (IZR (qx (handlePos j')) - cx)
      < 1 + clampTolerance (travelRadius j) (width j ÷ 2))%R /\
     (Rabs (IZR (qy (handlePos j')) - cy)
      < 1 + clampTolerance (travelRadius j) (height j ÷ 2))%R) /\
  (exists j' out,
     travelRadius (resized 150 150 j) = 50 /\
     rawOffset 175 75 (resized 150 150 j) = mkQPoint 100 0 /\
     mouseMoveEvent A LeftButton 175 75 (resized 150 150 j) = Returned j' out /\
     handlePos j' = mkQPoint 50 0).
Proof.
  intros p r cx cy.
  assert (Hc : contains (qx p) (qy p) (travelRadius j) = false).
  { apply distance_gt_iff; assumption. }
  pose proof (outside_distance_pos p _ Hc) as Hd.
  pose proof (distance_sqr_R p) as Hs.
  pose proof (on_circle _ _ _ r Hd Hs) as Hon. fold cx cy in Hon.
  split; [exact Hon |]. split.
  - pose proof (outside_not_centre _ _ _ Hc) as Hn.
    destruct (clamped_doubles_near_circle A HA (qx p) (qy p) Hn
                (travelRadius j) (width j ÷ 2) (height j ÷ 2) Hr) as [Hx Hy].
    replace (mkQPoint (qx p) (qy p)) with p in Hx, Hy by (destruct p; reflexivity).
    fold r in Hx, Hy. fold cx in Hx. fold cy in Hy.
    set (sx := clampCoordinate A (travelRadius j)
                 (cosd A (clampAngle A (qx p) (qy p))) (width j ÷ 2)) in *.
    set (sy := clampCoordinate A (travelRadius j)
                 (sind A (clampAngle A (qx p) (qy p))) (height j ÷ 2)) in *.
    exists (setControllerPosition
              (mkQPoint (double_to_int sx) (double_to_int sy)) j).
    eexists. exists sx, sy.
    split; [apply AllAxis_outside_move; assumption |].
    split; [reflexivity |]. split; [exact Hx |]. split; [exact Hy |].
    rewrite handlePos_setControllerPosition.
    unfold translateTopLeftToCenter. simpl qx. simpl qy.
    simpl size_width. simpl size_height.
    pose proof (double_to_int_error sx) as Ex. apply Rabs_def2 in Ex.
    pose proof (double_to_int_error sy) as Ey. apply Rabs_def2 in Ey.
    apply Rabs_le_inv in Hx. apply Rabs_le_inv in Hy.
    rewrite !minus_IZR. split; apply Rabs_def1; lra.
  - assert (Hm : m_mode (resized 150 150 j) = AllAxis) by exact Hmode.
    assert (Ho : contains (qx (rawOffset 175 75 (resized 150 150 j)))
                          (qy (rawOffset 175 75 (resized 150 150 j)))
                          (travelRadius (resized 150 150 j)) = false)
      by reflexivity.
    pose proof (AllAxis_outside_move A 175 75 (resized 150 150 j) Hm Ho) as Hev.
    cbv zeta in Hev.
    eexists. eexists.
    split; [reflexivity |]. split; [reflexivity |].
    split; [exact Hev |].
    rewrite handlePos_setControllerPosition.
    change (travelRadius (resized 150 150 j)) with 50.
    change (rawOffset 175 75 (resized 150 150 j)) with (mkQPoint 100 0).
    change (width (resized 150 150 j)) with 150.
    change (height (resized 150 150 j)) with 150.
    simpl qx. simpl qy. change (150 ÷ 2) with 75.
    assert (Hradius : clampRadius A 100 0 = 100%R).
    { rewrite (clampRadius_fl_distance A HA). unfold distance. simpl qx. simpl qy.
      replace (100 ^ 2 + 0 ^ 2)%R with (100 * 100)%R by lra.
      rewrite sqrt_square by lra. apply (fl_int A HA 100). }
    assert (Hratio : clampRatio A 100 0 = 1%R).
    { unfold clampRatio. rewrite Hradius.
      replace (100 / 100)%R with 1%R by lra. apply (fl_int A HA 1). }
    assert (Hangle : clampAngle A 100 0 = 0%R).
    { unfold clampAngle. cbv zeta. rewrite Hratio, (acosd_1 A HA).
      change (0 <? 0) with false. cbv iota. apply Ropp_0. }
    rewrite Hangle, (cosd_0 A HA), (sind_0 A HA).
    unfold clampCoordinate.
    rewrite Rmult_1_r, Rmult_0_r.
    rewrite (fl_int A HA 50), (fl_int A HA 0), <- !plus_IZR, !(fl_int A HA).
    rewrite !double_to_int_IZR. reflexivity.
Qed.

Lemma outside_circle_clamps_to_pixel_witness :
  exists j' out,
    mouseMoveEvent exactArith LeftButton 175 75 (resized 150 150 (Joystick_new 0 0)) =
      Returned j' out /\
    (Rabs (IZR (qx (handlePos j')) - 50 * (100 / distance (mkQPoint 100 0)))
     < 1 + clampTolerance 50 75)%R.
Proof.
  destruct (outside_circle_clamps_to_pixel exactArith 175 75
              (resized 150 150 (Joystick_new 0 0)) exactArith_laws)
    as (_ & (j' & out & sx & sy & Hev & _ & _ & _ & Hx & _) & _).
  - reflexivity.
  - vm_compute. discriminate.
  - apply distance_gt_iff; [vm_compute; discriminate | reflexivity].
  - exists j', out. split; [exact Hev | exact Hx].
Defined.

(** C1, as stated, fails: with travel radius 50 and the pointer at the
    offset (100, 100), farther than 50 from the centre, the handle is put at
    (35, 35) under every double arithmetic that keeps the laws, and the
    distance of (35, 35) from the centre is not 50. *)
Lemma clamped_handle_off_circle :
  m_mode (resized 150 150 (Joystick_new 0 0)) = AllAxis /\
  travelRadius (resized 150 150 (Joystick_new 0 0)) = 50 /\
  rawOffset 175 175 (resized 150 150 (Joystick_new 0 0)) = mkQPoint 100 100 /\
  (IZR 50 < distance (mkQPoint 100 100))%R /\
  (forall A : DoubleArith, DoubleLaws A ->
     exists j' out,
       mouseMoveEvent A LeftButton 175 175 (resized 150 150 (Joystick_new 0 0)) =
         Returned j' out /\
       handlePos j' = mkQPoint 35 35) /\
  distance (mkQPoint 35 35) <> IZR 50.
Proof.
  split; [reflexivity |]. split; [reflexivity |]. split; [reflexivity |].
  split.
  { apply (distance_gt_iff (mkQPoint 100 100) 50); [lia | reflexivity]. }
  split.
  - intros A HA.
    pose proof (AllAxis_outside_move A 175 175 (resized 150 150 (Joystick_new 0 0))
                  eq_refl eq_refl) as Hev.
    cbv zeta in Hev.
    change (rawOffset 175 175 (resized 150 150 (Joystick_new 0 0)))
      with (mkQPoint 100 100) in Hev.
    change (travelRadius (resized 150 150 (Joystick_new 0 0))) with 50 in Hev.
    change (width (resized 150 150 (Joystick_new 0 0)) ÷ 2) with 75 in Hev.
    change (height (resized 150 150 (Joystick_new 0 0)) ÷ 2) with 75 in Hev.
    simpl qx in Hev. simpl qy in Hev.
    destruct (clamped_doubles_near_circle A HA 100 100 ltac:(lia) 50 75 75 ltac:(lia))
      as [Hx Hy].
    apply Rabs_le_inv in Hx. apply Rabs_le_inv in Hy.
    pose proof (outside_distance_pos (mkQPoint 100 100) 50 eq_refl) as Hd.
    pose proof (distance_sqr_R (mkQPoint 100 100)) as Hs.
    simpl qx in Hs. simpl qy in Hs.
    set (d := distance (mkQPoint 100 100)) in *.
    assert (Hq : (35.3 <= 50 * (100 / d) <= 35.4)%R).
    { assert (Hqd : (100 / d * d = 100)%R) by (field; lra).
      assert (Hqpos : (0 < 100 / d)%R) by (apply Rdiv_lt_0_compat; lra).
      set (q := (100 / d)%R) in *.
      assert (Hq2 : (q * q * (d * d) = 100 * 100)%R).
      { replace (q * q * (d * d))%R with ((q * d) * (q * d))%R by ring.
        rewrite Hqd. ring. }
      rewrite Hs in Hq2.
      assert (Hhalf : (q * q = 1 / 2)%R) by lra.
      split; nra. }
    assert (Htol : (clampTolerance 50 75 <= / 1000)%R).
    { unfold clampTolerance. simpl Z.abs. lra. }
    rewrite (double_to_int_floor _ 110) in Hev by lra.
    rewrite (double_to_int_floor _ 110) in Hev by lra.
    eexists. eexists. split; [exact Hev | reflexivity].
  - intros Heq.
    pose proof (distance_sqr_R (mkQPoint 35 35)) as Hs35.
    rewrite Heq in Hs35. simpl qx in Hs35. simpl qy in Hs35. lra.
Qed.



(** X23: how far the rounding can take the handle from an integer point of
    the circle.  With travel radius 50 and the pointer straight below the
    centre, at the offset (0, 100), the point of the circle is (0, 50); the
    laws of double arithmetic leave the handle at X = 0 or X = -1 and at
    Y = 50 or Y = 49, according to the side of 75 and of 125 the computed
    doubles fall on. *)
Theorem clamped_handle_within_a_pixel (A : DoubleArith) (HA : DoubleLaws A) :
  rawOffset 75 175 (resized 150 150 (Joystick_new 0 0)) = mkQPoint 0 100 /\
  exists j' out,
    mouseMoveEvent A LeftButton 75 175 (resized 150 150 (Joystick_new 0 0)) =
      Returned j' out /\
    (qx (handlePos j') = 0 \/ qx (handlePos j') = -1) /\
    (qy (handlePos j') = 50 \/ qy (handlePos j') = 49).
Proof.
  split; [reflexivity |].
  pose proof (AllAxis_outside_move A 75 175 (resized 150 150 (Joystick_new 0 0))
                eq_refl eq_refl) as Hev.
  cbv zeta in Hev.
  change (rawOffset 75 175 (resized 150 150 (Joystick_new 0 0)))
    with (mkQPoint 0 100) in Hev.
  change (travelRadius (resized 150 150 (Joystick_new 0 0))) with 50 in Hev.
  change (width (resized 150 150 (Joystick_new 0 0)) ÷ 2) with 75 in Hev.
  change (height (resized 150 150 (Joystick_new 0 0)) ÷ 2) with 75 in Hev.
  simpl qx in Hev. simpl qy in Hev.
  destruct (clamped_doubles_near_circle A HA 0 100 ltac:(lia) 50 75 75 ltac:(lia))
    as [Hx Hy].
  apply Rabs_le_inv in Hx. apply Rabs_le_inv in Hy.
  pose proof (outside_distance_pos (mkQPoint 0 100) 50 eq_refl) as Hd.
  pose proof (distance_sqr_R (mkQPoint 0 100)) as Hs.
  simpl qx in Hs. simpl qy in Hs.
  assert (Hd100 : distance (mkQPoint 0 100) = 100%R) by nra.
  rewrite Hd100 in Hx, Hy.
  assert (Htol : (clampTolerance 50 75 <= / 1000)%R).
  { unfold clampTolerance. simpl Z.abs. lra. }
  set (sx := clampCoordinate A 50 (cosd A (clampAngle A 0 100)) 75) in *.
  set (sy := clampCoordinate A 50 (sind A (clampAngle A 0 100)) 75) in *.
  eexists. eexists. split; [exact Hev |].
  rewrite handlePos_setControllerPosition.
  unfold translateTopLeftToCenter. cbn [qx qy size_width size_height].
  change (width (resized 150 150 (Joystick_new 0 0)) ÷ 2) with 75.
  change (height (resized 150 150 (Joystick_new 0 0)) ÷ 2) with 75.
  split.
  - destruct (Rle_dec 75 sx) as [H | H].
    + left. rewrite (double_to_int_floor sx 75) by lra. reflexivity.
    + right. rewrite (double_to_int_floor sx 74) by lra. reflexivity.
  - destruct (Rle_dec 125 sy) as [H | H].
    + left. rewrite (double_to_int_floor sy 125) by lra. reflexivity.
    + right. rewrite (double_to_int_floor sy 124) by lra. reflexivity.
Qed.

Lemma clamped_handle_within_a_pixel_witness :
  exists j' out,
    mouseMoveEvent exactArith LeftButton 75 175 (resized 150 150 (Joystick_new 0 0)) =
      Returned j' out /\
    (qx (handlePos j') = 0 \/ qx (handlePos j') = -1).
Proof.
  destruct (clamped_handle_within_a_pixel exactArith exactArith_laws)
    as (_ & j' & out & Hev & Hx & _).
  exists j', out. split; [exact Hev | exact Hx].
Defined.

(** * Further properties of the code *)

(** ** Sizing *)

Lemma getRadius_sixths (m : Z) :
  0 <= m -> m ÷ 2 - m ÷ 6 = 2 * (m / 6) + (m mod 6) / 2.
Proof.
  intros Hm. rewrite quot2_nonneg, quot6_nonneg by assumption.
  pose proof (Z.div_mod m 6 ltac:(lia)) as H6.
  pose proof (Z.mod_pos_bound m 6 ltac:(lia)) as Hr.
  set (q := m / 6) in *. set (r := m mod 6) in *.
  assert (Hhalf : m / 2 = 3 * q + r / 2).
  { rewrite H6. replace (6 * q + r) with (r + (3 * q) * 2) by lia.
    rewrite Z.div_add by lia. lia. }
  lia.
Qed.

Lemma getRadius_bounds (w h : Z)
  (Hw : 0 <= w) (Hh : 0 <= h) :
  Z.min w h - 1 <= 3 * getRadius w h <= Z.min w h + 2 /\
  0 <= getRadius w h /\
  getRadius w h <= w ÷ 2 /\
  getRadius w h <= h ÷ 2.
Proof.
  unfold getRadius.
  assert (Hm : 0 <= Z.min w h) by lia.
  rewrite (getRadius_sixths _ Hm).
  pose proof (Z.div_mod (Z.min w h) 6 ltac:(lia)) as H6.
  pose proof (Z.mod_pos_bound (Z.min w h) 6 ltac:(lia)) as Hr.
  set (q := Z.min w h / 6) in *. set (r := Z.min w h mod 6) in *.
  pose proof (Z.div_mod r 2 ltac:(lia)) as H2.
  pose proof (Z.mod_pos_bound r 2 ltac:(lia)) as Hr2.
  rewrite !quot2_nonneg by assumption.
  pose proof (Z.div_le_mono (Z.min w h) w 2 ltac:(lia) ltac:(lia)) as Hwm.
  pose proof (Z.div_le_mono (Z.min w h) h 2 ltac:(lia) ltac:(lia)) as Hhm.
  assert (Hhalf : Z.min w h / 2 = 3 * q + r / 2).
  { rewrite H6. replace (6 * q + r) with (r + (3 * q) * 2) by lia.
    rewrite Z.div_add by lia. lia. }
  lia.
Qed.

(** X1: for a widget of non-negative size the travel radius is a third of
    the smaller side, to the pixel: [min - 1 <= 3 * radius <= min + 2]; it is
    never negative and never more than half of either side. *)
Theorem getRadius_third_of_smaller_side (w h : Z)
  (Hw : 0 <= w) (Hh : 0 <= h) :
  Z.min w h - 1 <= 3 * getRadius w h <= Z.min w h + 2 /\
  0 <= getRadius w h /\
  getRadius w h <= w ÷ 2 /\
  getRadius w h <= h ÷ 2.
Proof. exact (getRadius_bounds w h Hw Hh). Qed.

Lemma getRadius_third_of_smaller_side_witness :
  Z.min 641 480 - 1 <= 3 * getRadius 641 480 <= Z.min 641 480 + 2 /\
  0 <= getRadius 641 480 /\
  getRadius 641 480 <= 641 ÷ 2 /\
  getRadius 641 480 <= 480 ÷ 2.
Proof. apply (getRadius_third_of_smaller_side 641 480); lia. Defined.

(** X2: the travel radius depends on the smaller side only, is the same for
    a widget and its transpose, and never shrinks when the widget grows. *)
Theorem getRadius_monotone (w h w' h' : Z)
  (Hw : 0 <= w <= w') (Hh : 0 <= h <= h') :
  getRadius w h <= getRadius w' h' /\
  getRadius w h = getRadius h w /\
  getRadius w h = getRadius (Z.min w h) (Z.min w h).
Proof.
  split; [| split].
  - unfold getRadius.
    assert (Hm : 0 <= Z.min w h) by lia.
    assert (Hm' : 0 <= Z.min w' h') by lia.
    assert (Hle : Z.min w h <= Z.min w' h') by lia.
    rewrite (getRadius_sixths _ Hm), (getRadius_sixths _ Hm').
    pose proof (Z.div_mod (Z.min w h) 6 ltac:(lia)) as H6.
    pose proof (Z.mod_pos_bound (Z.min w h) 6 ltac:(lia)) as Hr.
    pose proof (Z.div_mod (Z.min w' h') 6 ltac:(lia)) as H6'.
    pose proof (Z.mod_pos_bound (Z.min w' h') 6 ltac:(lia)) as Hr'.
    set (q := Z.min w h / 6) in *. set (r := Z.min w h mod 6) in *.
    set (q' := Z.min w' h' / 6) in *. set (r' := Z.min w' h' mod 6) in *.
    pose proof (Z.div_mod r 2 ltac:(lia)) as H2.
    pose proof (Z.mod_pos_bound r 2 ltac:(lia)) as Hr2.
    pose proof (Z.div_mod r' 2 ltac:(lia)) as H2'.
    pose proof (Z.mod_pos_bound r' 2 ltac:(lia)) as Hr2'.
    lia.
  - unfold getRadius. rewrite (Z.min_comm h w). reflexivity.
  - unfold getRadius. rewrite Z.min_id. reflexivity.
Qed.

Lemma getRadius_monotone_witness :
  getRadius 300 200 <= getRadius 305 206 /\
  getRadius 300 200 = getRadius 200 300 /\
  getRadius 300 200 = getRadius (Z.min 300 200) (Z.min 300 200).
Proof. apply (getRadius_monotone 300 200 305 206); lia. Defined.

(** X3: after a resize to a non-negative size, whatever the state was, the
    handle is at the centre, the travel circle lies inside the widget on
    both axes, the handle's radius is at most half the travel radius, and a
    handle pushed to the travel boundary reaches at most one pixel beyond
    the half of the smaller side. *)
Theorem resize_fits_widget (w h : Z) (j : Joystick)
  (Hw : 0 <= w) (Hh : 0 <= h) :
  handlePos (resized w h j) = mkQPoint 0 0 /\
  0 <= qx (m_controllerPosition (resized w h j)) - travelRadius (resized w h j) /\
  qx (m_controllerPosition (resized w h j)) + travelRadius (resized w h j) <= w /\
  0 <= qy (m_controllerPosition (resized w h j)) - travelRadius (resized w h j) /\
  qy (m_controllerPosition (resized w h j)) + travelRadius (resized w h j) <= h /\
  2 * handleRadius (resized w h j) <= travelRadius (resized w h j) /\
  travelRadius (resized w h j) + handleRadius (resized w h j) <= Z.min w h ÷ 2 + 1.
Proof.
  destruct (getRadius_bounds w h Hw Hh) as (H3 & H0 & Hrw & Hrh).
  unfold handlePos, travelRadius, handleRadius, resized, resizeEvent,
    translateTopLeftToCenter, getCenter, setRadius.
  cbn [qx qy radius m_joystick m_controller m_controllerPosition width height
       size_width size_height].
  rewrite !Z.sub_diag.
  rewrite (quot2_nonneg (getRadius w h)) by assumption.
  rewrite !quot2_nonneg in * by lia.
  pose proof (Z.div_mod w 2 ltac:(lia)) as Hdw.
  pose proof (Z.mod_pos_bound w 2 ltac:(lia)) as Hmw.
  pose proof (Z.div_mod h 2 ltac:(lia)) as Hdh.
  pose proof (Z.mod_pos_bound h 2 ltac:(lia)) as Hmh.
  pose proof (Z.div_mod (getRadius w h) 2 ltac:(lia)) as Hdr.
  pose proof (Z.mod_pos_bound (getRadius w h) 2 ltac:(lia)) as Hmr.
  pose proof (Z.div_mod (Z.min w h) 2 ltac:(lia)) as Hdm.
  pose proof (Z.mod_pos_bound (Z.min w h) 2 ltac:(lia)) as Hmm.
  repeat split; lia.
Qed.

Lemma resize_fits_widget_witness :
  handlePos (resized 100 100 (Joystick_new 0 0)) = mkQPoint 0 0 /\
  travelRadius (resized 100 100 (Joystick_new 0 0)) +
    handleRadius (resized 100 100 (Joystick_new 0 0)) <= Z.min 100 100 ÷ 2 + 1.
Proof.
  destruct (resize_fits_widget 100 100 (Joystick_new 0 0)) as (Hc & _ & _ & _ & _ & _ & Hb).
  - lia.
  - lia.
  - split; [exact Hc | exact Hb].
Defined.

(** ** The circle test *)

Lemma sqr_abs (a : Z) : Z.abs a ^ 2 = a ^ 2.
Proof. rewrite !Z.pow_2_r. apply Z.abs_square. Qed.

(** X4: the circle test looks at magnitudes only: the signs of the two
    offsets and of the radius do not matter (a negative radius tests like
    its absolute value), nor does the order of the offsets. *)
Theorem contains_magnitudes (px py r : Z) :
  contains px py r = contains (Z.abs px) (Z.abs py) (Z.abs r) /\
  contains px py r = contains py px r /\
  contains px py (- r) = contains px py r.
Proof.
  unfold contains. rewrite !sqr_abs. split; [reflexivity |]. split.
  - rewrite (Z.add_comm (py ^ 2)). reflexivity.
  - rewrite <- (sqr_abs (- r)), Z.abs_opp, sqr_abs. reflexivity.
Qed.

(** X5: a point that passes the circle test still passes it when it moves
    towards the axes or when the radius grows in magnitude. *)
Theorem contains_monotone (px py r px' py' r' : Z)
  (Hin : contains px py r = true)
  (Hx : Z.abs px' <= Z.abs px) (Hy : Z.abs py' <= Z.abs py)
  (Hr : Z.abs r <= Z.abs r') :
  contains px' py' r' = true.
Proof.
  apply contains_true. apply contains_true in Hin.
  rewrite <- (sqr_abs px), <- (sqr_abs py), <- (sqr_abs r) in Hin.
  rewrite <- (sqr_abs px'), <- (sqr_abs py'), <- (sqr_abs r').
  rewrite !Z.pow_2_r in *.
  pose proof (Z.abs_nonneg px'). pose proof (Z.abs_nonneg py').
  pose proof (Z.abs_nonneg r). nia.
Qed.

Lemma contains_monotone_witness : contains (-2) 3 (-6) = true.
Proof.
  apply (contains_monotone 3 (-4) 5 (-2) 3 (-6)).
  - reflexivity.
  - simpl; lia.
  - simpl; lia.
  - simpl; lia.
Defined.

(** X6: the circle test holds exactly when the Euclidean distance of the
    point from the centre is at most the magnitude of the radius. *)
Theorem contains_iff_distance (px py r : Z) :
  contains px py r = true <->
  (distance (mkQPoint px py) <= IZR (Z.abs r))%R.
Proof.
  rewrite contains_true, distance_le_iff. simpl qx. simpl qy.
  rewrite sqr_abs. pose proof (Z.abs_nonneg r). tauto.
Qed.

(** ** The mode as an integer *)

(** X7: converting a mode to [int] and back gives the mode again, and an
    [int] that converts to a mode is the [int] of that mode; the [int]s of
    the modes are exactly 0 to 3. *)
Theorem mode_int_round_trip :
  (forall m, mode_of_int (int_of_mode m) = Some m) /\
  (forall n m, mode_of_int n = Some m -> int_of_mode m = n) /\
  (forall n, (exists m, mode_of_int n = Some m) <-> 0 <= n <= 3).
Proof.
  assert (Hback : forall n m, mode_of_int n = Some m -> int_of_mode m = n).
  { intros n m H. unfold mode_of_int in H.
    destruct n as [| p | p]; try discriminate.
    - injection H as <-. reflexivity.
    - destruct p as [p | p |]; try destruct p as [p | p |]; try discriminate;
        injection H as <-; reflexivity. }
  split; [intros m; destruct m; reflexivity |]. split; [exact Hback |].
  intros n. split.
  - intros [m H]. apply Hback in H. destruct m; simpl in H; lia.
  - intros Hn.
    assert (Hcases : n = 0 \/ n = 1 \/ n = 2 \/ n = 3) by lia.
    destruct Hcases as [-> | [-> | [-> | ->]]]; eexists; reflexivity.
Qed.

(** X8: on the modes [operator|] and [operator&] are commutative and
    idempotent, NoAxis is neutral for [|] and AllAxis for [&], AllAxis
    absorbs [|] and NoAxis absorbs [&], and each operator absorbs the
    other: [a & (a | b) = a] and [a | (a & b) = a]. *)
Theorem mode_operators_lattice :
  (forall a b, operator_or a b = operator_or b a) /\
  (forall a b, operator_and a b = operator_and b a) /\
  (forall a, operator_or a a = Some a /\ operator_and a a = Some a) /\
  (forall a, operator_or NoAxis a = Some a /\ operator_and AllAxis a = Some a) /\
  (forall a, operator_or AllAxis a = Some AllAxis /\
             operator_and NoAxis a = Some NoAxis) /\
  (forall a b m, operator_or a b = Some m -> operator_and a m = Some a) /\
  (forall a b m, operator_and a b = Some m -> operator_or a m = Some a).
Proof.
  repeat match goal with |- _ /\ _ => split end.
  - intros a b; destruct a, b; reflexivity.
  - intros a b; destruct a, b; reflexivity.
  - intros a; destruct a; split; reflexivity.
  - intros a; destruct a; split; reflexivity.
  - intros a; destruct a; split; reflexivity.
  - intros a b m H; destruct a, b; injection H as <-; reflexivity.
  - intros a b m H; destruct a, b; injection H as <-; reflexivity.
Qed.

(** ** What a pointer move does to the state *)

Ltac split_move H :=
  unfold mouseMoveEvent in H; cbv zeta in H; cbn [qx qy] in H;
  repeat match type of H with
         | context [match m_mode ?j with _ => _ end] =>
             let E := fresh "Emode" in destruct (m_mode j) eqn:E
         | context [if ?c then _ else _] =>
             let E := fresh "Ec" in destruct c eqn:E
         end;
  try discriminate H.

Lemma mouseMoveEvent_frame (A : DoubleArith) (buttons ex ey : Z) (j j' : Joystick) (out : list Signal) :
  mouseMoveEvent A buttons ex ey j = Returned j' out ->
  width j' = width j /\ height j' = height j /\
  m_x j' = m_x j /\ m_y j' = m_y j /\
  m_backToZero j' = m_backToZero j /\ m_mode j' = m_mode j /\
  m_joystick j' = m_joystick j /\ m_controller j' = m_controller j.
Proof.
  intros H. split_move H; injection H as <- _; repeat split; assumption.
Qed.

(** X9: with both axes allowed a left-button move forgets where the handle
    was: started from any handle position it gives the same state and the
    same notification. *)
Theorem AllAxis_move_forgets_position (A : DoubleArith) (ex ey : Z) (q : QPoint) (j : Joystick)
  (Hmode : m_mode j = AllAxis) :
  mouseMoveEvent A LeftButton ex ey (setControllerPosition q j) =
  mouseMoveEvent A LeftButton ex ey j.
Proof.
  unfold mouseMoveEvent. simpl negb. cbv iota.
  cbn [m_mode width height m_joystick setControllerPosition].
  rewrite Hmode. reflexivity.
Qed.

Lemma AllAxis_move_forgets_position_witness :
  mouseMoveEvent exactArith LeftButton 180 90
    (setControllerPosition (mkQPoint 11 7) (resized 300 200 (Joystick_new 0 0))) =
  mouseMoveEvent exactArith LeftButton 180 90 (resized 300 200 (Joystick_new 0 0)).
Proof.
  apply ((AllAxis_move_forgets_position exactArith) 180 90 (mkQPoint 11 7)
           (resized 300 200 (Joystick_new 0 0))).
  reflexivity.
Defined.

(** X10: delivering the same pointer move a second time changes nothing:
    it returns the state the first delivery gave, with the same
    notification. *)
Theorem move_twice_is_move_once (A : DoubleArith) (buttons ex ey : Z) (j j' : Joystick)
  (out : list Signal)
  (Hev : mouseMoveEvent A buttons ex ey j = Returned j' out) :
  mouseMoveEvent A buttons ex ey j' = Returned j' out.
Proof.
  split_move Hev; injection Hev as <- <-;
    unfold mouseMoveEvent; cbv zeta;
    cbn [m_mode width height m_joystick setControllerPosition qx qy];
    rewrite ?Emode, ?Ec, ?Ec0, ?Ec1, ?Ec2; reflexivity.
Qed.

Lemma move_twice_is_move_once_witness :
  exists j' out,
    mouseMoveEvent exactArith LeftButton 30 400
      (setMode XAxisOnly (resized 300 200 (Joystick_new 0 0))) = Returned j' out /\
    mouseMoveEvent exactArith LeftButton 30 400 j' = Returned j' out.
Proof.
  eexists. eexists. split.
  - reflexivity.
  - apply ((move_twice_is_move_once exactArith) LeftButton 30 400
             (setMode XAxisOnly (resized 300 200 (Joystick_new 0 0)))).
    reflexivity.
Defined.

(** ** Where a move can put the handle *)

Lemma clampAxis_towardsPointer (v r : Z) :
  0 <= r -> towardsPointer (clampAxis v r) v r.
Proof.
  intros Hr. unfold towardsPointer, clampAxis.
  destruct (Z.ltb_spec v r), (Z.ltb_spec (- r) v), (Z.ltb_spec 0 v);
    simpl; lia.
Qed.

(** The clamped coordinate, once truncated and recentred, is within the
    travel radius of the centre: rounding is monotone and keeps integers,
    and the computed cosine and sine are within [[-1, 1]]. *)
Lemma clamped_coordinate_within_radius (A : DoubleArith) (HA : DoubleLaws A)
  (jr c : Z) (dir : R) :
  0 <= jr -> (-1 <= dir <= 1)%R ->
  Z.abs (double_to_int (clampCoordinate A jr dir c) - c) <= jr.
Proof.
  intros Hr Hdir.
  pose proof (clampCoordinate_between A HA jr c dir Hr Hdir) as Hb.
  apply double_to_int_between in Hb. lia.
Qed.

Lemma left_move_within_radius (A : DoubleArith) (HA : DoubleLaws A)
  (ex ey : Z) (j : Joystick)
  (Hr : 0 <= travelRadius j) (Hmode : m_mode j <> NoAxis) :
  exists j' out,
    mouseMoveEvent A LeftButton ex ey j = Returned j' out /\
    (m_mode j <> YAxisOnly -> Z.abs (qx (handlePos j')) <= travelRadius j) /\
    (m_mode j <> XAxisOnly -> Z.abs (qy (handlePos j')) <= travelRadius j) /\
    (m_mode j = XAxisOnly \/
     (m_mode j = AllAxis /\
      contains (qx (rawOffset ex ey j)) (qy (rawOffset ex ey j))
               (travelRadius j) = true) ->
     towardsPointer (qx (handlePos j')) (qx (rawOffset ex ey j)) (travelRadius j)) /\
    (m_mode j = YAxisOnly \/
     (m_mode j = AllAxis /\
      contains (qx (rawOffset ex ey j)) (qy (rawOffset ex ey j))
               (travelRadius j) = true) ->
     towardsPointer (qy (handlePos j')) (qy (rawOffset ex ey j)) (travelRadius j)) /\
    (m_mode j = YAxisOnly -> qx (handlePos j') = qx (handlePos j)) /\
    (m_mode j = XAxisOnly -> qy (handlePos j') = qy (handlePos j)).
Proof.
  destruct (m_mode j) eqn:Emode.
  - contradiction.
  - destruct (XAxisOnly_move A ex ey j Emode) as (j' & out & Hev & Hw & Hh & Hy & Hx).
    exists j', out. split; [exact Hev |].
    pose proof (clampAxis_towardsPointer (qx (rawOffset ex ey j)) _ Hr) as Ht.
    split; [intros _; rewrite Hx; apply Ht |].
    split; [intros H; contradiction |].
    split; [intros _; rewrite Hx; exact Ht |].
    split; [intros [H | [H _]]; discriminate |].
    split; [discriminate |]. intros _.
    unfold handlePos, translateTopLeftToCenter. simpl. rewrite Hy, Hh. reflexivity.
  - destruct (YAxisOnly_move A ex ey j Emode) as (j' & out & Hev & Hw & Hh & Hx & Hy).
    exists j', out. split; [exact Hev |].
    pose proof (clampAxis_towardsPointer (qy (rawOffset ex ey j)) _ Hr) as Ht.
    split; [intros H; contradiction |].
    split; [intros _; rewrite Hy; apply Ht |].
    split; [intros [H | [H _]]; discriminate |].
    split; [intros _; rewrite Hy; exact Ht |].
    split; [| discriminate]. intros _.
    unfold handlePos, translateTopLeftToCenter. simpl. rewrite Hx, Hw. reflexivity.
  - set (p := rawOffset ex ey j).
    destruct (contains (qx p) (qy p) (travelRadius j)) eqn:Ec.
    + eexists. eexists.
      split; [apply AllAxis_inside_move; assumption |].
      rewrite handlePos_setControllerPosition.
      change (translateTopLeftToCenter (mkQPoint ex ey)
                (mkQSize (width j) (height j))) with p.
      apply contains_true in Ec. rewrite !Z.pow_2_r in Ec.
      split; [intros _; nia |].
      split; [intros _; nia |].
      split; [intros _; unfold towardsPointer; nia |].
      split; [intros _; unfold towardsPointer; nia |].
      split; discriminate.
    + eexists. eexists.
      split; [apply AllAxis_outside_move; assumption |].
      fold p. rewrite handlePos_setControllerPosition.
      unfold translateTopLeftToCenter.
      cbn [qx qy size_width size_height].
      split; [intros _; apply clamped_coordinate_within_radius;
              [exact HA | exact Hr | apply (cosd_bound A HA)] |].
      split; [intros _; apply clamped_coordinate_within_radius;
              [exact HA | exact Hr | apply (sind_bound A HA)] |].
      split; [intros [H | [_ H]]; discriminate |].
      split; [intros [H | [_ H]]; discriminate |].
      split; discriminate.
Qed.

(** X11: in a mode that allows an axis and with a travel radius of at
    least 0, a left-button move returns, and each coordinate the mode
    drives ends no farther from the centre than the travel radius, also
    after the rounding and the truncation of the clamping branch.  In a
    single-axis mode, and with both axes allowed when the pointer is within
    the circle, the driven coordinate moreover ends on the pointer's side of
    the centre, no farther from it than the pointer.  The coordinate a
    single-axis mode does not drive keeps its value. *)
Theorem move_within_travel_radius (A : DoubleArith) (ex ey : Z) (j : Joystick)
  (HA : DoubleLaws A)
  (Hr : 0 <= travelRadius j) (Hmode : m_mode j <> NoAxis) :
  exists j' out,
    mouseMoveEvent A LeftButton ex ey j = Returned j' out /\
    (m_mode j <> YAxisOnly -> Z.abs (qx (handlePos j')) <= travelRadius j) /\
    (m_mode j <> XAxisOnly -> Z.abs (qy (handlePos j')) <= travelRadius j) /\
    (m_mode j = XAxisOnly \/
     (m_mode j = AllAxis /\
      contains (qx (rawOffset ex ey j)) (qy (rawOffset ex ey j))
               (travelRadius j) = true) ->
     towardsPointer (qx (handlePos j')) (qx (rawOffset ex ey j)) (travelRadius j)) /\
    (m_mode j = YAxisOnly \/
     (m_mode j = AllAxis /\
      contains (qx (rawOffset ex ey j)) (qy (rawOffset ex ey j))
               (travelRadius j) = true) ->
     towardsPointer (qy (handlePos j')) (qy (rawOffset ex ey j)) (travelRadius j)) /\
    (m_mode j = YAxisOnly -> qx (handlePos j') = qx (handlePos j)) /\
    (m_mode j = XAxisOnly -> qy (handlePos j') = qy (handlePos j)).
Proof. exact (left_move_within_radius A HA ex ey j Hr Hmode). Qed.

Lemma move_within_travel_radius_witness :
  exists j' out,
    mouseMoveEvent exactArith LeftButton 175 175 (resized 150 150 (Joystick_new 0 0)) =
      Returned j' out /\
    Z.abs (qx (handlePos j')) <= 50 /\
    Z.abs (qy (handlePos j')) <= 50.
Proof.
  destruct (move_within_travel_radius exactArith 175 175
              (resized 150 150 (Joystick_new 0 0)) exactArith_laws)
    as (j' & out & Hev & Hx & Hy & _).
  - vm_compute. discriminate.
  - discriminate.
  - exists j', out. split; [exact Hev |]. split.
    + apply Hx. discriminate.
    + apply Hy. discriminate.
Defined.



(** ** What a move reports *)

Lemma axis_mode_move_returns (A : DoubleArith) (ex ey : Z) (j : Joystick)
  (Hmode : m_mode j <> NoAxis) :
  exists j',
    mouseMoveEvent A LeftButton ex ey j =
    Returned j' [valueChanged (int_to_char (qx (rawOffset ex ey j)))
                              (int_to_char (qy (rawOffset ex ey j)))].
Proof.
  unfold mouseMoveEvent, rawOffset, translateTopLeftToCenter.
  simpl negb. cbv iota zeta. cbn [qx qy size_width size_height].
  destruct (m_mode j); [contradiction | ..];
    repeat match goal with
           | |- context [if ?c then _ else _] => destruct c
           end;
    eexists; reflexivity.
Qed.

(** X12: in each of the three modes that allow an axis a left-button move
    emits exactly one [valueChanged], carrying both recentred pointer
    offsets converted to [char]: also the offset along the axis a
    single-axis mode does not drive, and whatever the travel radius and
    the handle position are. *)
Theorem valueChanged_in_every_axis_mode (A : DoubleArith) (ex ey : Z) (j : Joystick)
  (Hmode : m_mode j <> NoAxis) :
  exists j',
    mouseMoveEvent A LeftButton ex ey j =
    Returned j' [valueChanged (int_to_char (qx (rawOffset ex ey j)))
                              (int_to_char (qy (rawOffset ex ey j)))].
Proof. exact ((axis_mode_move_returns A) ex ey j Hmode). Qed.

Lemma valueChanged_in_every_axis_mode_witness :
  exists j',
    mouseMoveEvent exactArith LeftButton 30 400
      (setMode XAxisOnly (resized 300 200 (Joystick_new 0 0))) =
    Returned j' [valueChanged (-120) 44].
Proof.
  apply ((valueChanged_in_every_axis_mode exactArith) 30 400
           (setMode XAxisOnly (resized 300 200 (Joystick_new 0 0)))).
  discriminate.
Defined.

Lemma int_to_char_period (v k : Z) : int_to_char (v + 256 * k) = int_to_char v.
Proof.
  unfold int_to_char.
  replace (v + 256 * k + 128) with (v + 128 + k * 256) by lia.
  rewrite Z.mod_add by lia. reflexivity.
Qed.

(** X13: the notification cannot tell pointer positions that are a
    multiple of 256 pixels apart on either axis: in a mode that allows an
    axis, left-button moves to [(ex, ey)] and to
    [(ex + 256 * kx, ey + 256 * ky)] emit the same [valueChanged]. *)
Theorem valueChanged_aliases_every_256_pixels (A : DoubleArith) (ex ey kx ky : Z) (j : Joystick)
  (Hmode : m_mode j <> NoAxis) :
  exists j1 j2 out,
    mouseMoveEvent A LeftButton ex ey j = Returned j1 out /\
    mouseMoveEvent A LeftButton (ex + 256 * kx) (ey + 256 * ky) j = Returned j2 out.
Proof.
  destruct ((axis_mode_move_returns A) ex ey j Hmode) as [j1 H1].
  destruct ((axis_mode_move_returns A) (ex + 256 * kx) (ey + 256 * ky) j Hmode)
    as [j2 H2].
  exists j1, j2. eexists. split; [exact H1 |].
  rewrite H2. f_equal.
  unfold rawOffset, translateTopLeftToCenter. cbn [qx qy size_width size_height].
  replace (ex + 256 * kx - width j ÷ 2) with (ex - width j ÷ 2 + 256 * kx) by lia.
  replace (ey + 256 * ky - height j ÷ 2) with (ey - height j ÷ 2 + 256 * ky) by lia.
  rewrite !int_to_char_period. reflexivity.
Qed.

Lemma valueChanged_aliases_every_256_pixels_witness :
  exists j1 j2 out,
    mouseMoveEvent exactArith LeftButton 80 90 (resized 300 200 (Joystick_new 0 0)) =
      Returned j1 out /\
    mouseMoveEvent exactArith LeftButton (80 + 256 * 1) (90 + 256 * (-1))
      (resized 300 200 (Joystick_new 0 0)) = Returned j2 out.
Proof.
  apply ((valueChanged_aliases_every_256_pixels exactArith) 80 90 1 (-1)
           (resized 300 200 (Joystick_new 0 0))).
  discriminate.
Defined.

(** ** Runs of events *)

Lemma run_invariant (A : DoubleArith) (P : Joystick -> Prop) (ok : Event -> bool) :
  (forall e j j' out,
      ok e = true -> P j -> deliver A e j = Returned j' out -> P j') ->
  forall evs j j' out,
    forallb ok evs = true -> P j -> run A evs j = Returned j' out -> P j'.
Proof.
  intros Hstep evs. induction evs as [| e rest IH]; intros j j' out Hok HP Hrun.
  - simpl in Hrun. injection Hrun as <- _. exact HP.
  - simpl in Hok. apply andb_prop in Hok. destruct Hok as [Hoke Hokr].
    simpl in Hrun.
    destruct (deliver A e j) as [j1 o1 |] eqn:Hd; [| discriminate].
    destruct (run A rest j1) as [j2 o2 |] eqn:Hr; [| discriminate].
    injection Hrun as <- _.
    apply (IH j1 j2 o2 Hokr); [| exact Hr].
    apply (Hstep e j j1 o1); assumption.
Qed.

Lemma forallb_true {A : Type} (l : list A) : forallb (fun _ => true) l = true.
Proof. induction l; simpl; auto. Qed.

(** An event other than a resize leaves the geometry and the two radii as
    they were. *)
Lemma deliver_keeps_geometry (A : DoubleArith) (e : Event) (j j' : Joystick) (out : list Signal) :
  deliver A e j = Returned j' out ->
  match e with
  | Resize w h => j' = resized w h j
  | _ => width j' = width j /\ height j' = height j /\
         m_joystick j' = m_joystick j /\ m_controller j' = m_controller j
  end.
Proof.
  intros H. destruct e; simpl in H.
  - injection H as <- _. reflexivity.
  - apply (mouseMoveEvent_frame A) in H. tauto.
  - injection H as <- _. unfold mouseReleaseEvent.
    destruct (m_backToZero j); repeat split.
  - injection H as <- _. repeat split.
  - injection H as <- _. repeat split.
  - injection H as <- _. unfold Joystick_setX; cbv zeta.
    destruct (negb (int_to_char v =? m_x j)); repeat split.
  - injection H as <- _. unfold Joystick_setY; cbv zeta.
    destruct (negb (int_to_char v =? m_y j)); repeat split.
Qed.

Lemma deliver_mode (A : DoubleArith) (e : Event) (j j' : Joystick) (out : list Signal) :
  deliver A e j = Returned j' out ->
  m_mode j' = match e with SetMode m => m | _ => m_mode j end.
Proof.
  intros H. destruct e; simpl in H.
  - injection H as <- _. reflexivity.
  - apply (mouseMoveEvent_frame A) in H. tauto.
  - injection H as <- _. unfold mouseReleaseEvent.
    destruct (m_backToZero j); reflexivity.
  - injection H as <- _. reflexivity.
  - injection H as <- _. reflexivity.
  - injection H as <- _. unfold Joystick_setX; cbv zeta.
    destruct (negb (int_to_char v =? m_x j)); reflexivity.
  - injection H as <- _. unfold Joystick_setY; cbv zeta.
    destruct (negb (int_to_char v =? m_y j)); reflexivity.
Qed.

Lemma deliver_returns_outside_NoAxis (A : DoubleArith) (e : Event) (j : Joystick) :
  m_mode j <> NoAxis -> exists j' out, deliver A e j = Returned j' out.
Proof.
  intros Hmode. destruct e; simpl; try (eexists; eexists; reflexivity).
  destruct (Z.eq_dec buttons LeftButton) as [-> | Hb].
  - destruct ((axis_mode_move_returns A) ex ey j Hmode) as [j' H].
    eexists. eexists. exact H.
  - rewrite (mouseMoveEvent_other_buttons A) by assumption.
    eexists. eexists. reflexivity.
Qed.

(** X14: the program is ended only through mode NoAxis: a run of events
    that starts in another mode and never sets the mode to NoAxis returns,
    in a mode other than NoAxis, whatever the events are. *)
Theorem run_returns_outside_NoAxis (A : DoubleArith) (evs : list Event) (j : Joystick)
  (Hmode : m_mode j <> NoAxis) (Hset : existsb setsNoAxis evs = false) :
  exists j' out, run A evs j = Returned j' out /\ m_mode j' <> NoAxis.
Proof.
  revert j Hmode Hset. induction evs as [| e rest IH]; intros j Hmode Hset.
  - exists j, []. split; [reflexivity | exact Hmode].
  - simpl in Hset. apply orb_false_elim in Hset. destruct Hset as [He Hrest].
    destruct ((deliver_returns_outside_NoAxis A) e j Hmode) as (j1 & o1 & Hd).
    assert (Hmode1 : m_mode j1 <> NoAxis).
    { rewrite ((deliver_mode A) e j j1 o1 Hd).
      destruct e; try exact Hmode. destruct m; simpl in He; congruence. }
    destruct (IH j1 Hmode1 Hrest) as (j2 & o2 & Hr & Hm2).
    exists j2, (o1 ++ o2). split; [| exact Hm2].
    simpl. rewrite Hd, Hr. reflexivity.
Qed.

Lemma run_returns_outside_NoAxis_witness :
  exists j' out,
    run exactArith [Resize 300 200; MouseMove LeftButton 400 10; SetMode XAxisOnly;
         MouseMove LeftButton (-7) 500; MouseRelease; SetMode YAxisOnly;
         MouseMove 3 1 1; MouseMove LeftButton 0 0]
        (Joystick_new 0 0) = Returned j' out /\
    m_mode j' <> NoAxis.
Proof.
  apply ((run_returns_outside_NoAxis exactArith)
           [Resize 300 200; MouseMove LeftButton 400 10; SetMode XAxisOnly;
            MouseMove LeftButton (-7) 500; MouseRelease; SetMode YAxisOnly;
            MouseMove 3 1 1; MouseMove LeftButton 0 0]
           (Joystick_new 0 0)).
  - discriminate.
  - reflexivity.
Defined.

(** X16: once a resize has been delivered, whatever follows, the travel
    radius is the one computed from the current size of the widget and the
    handle's radius is half of it (integer division): no other event
    touches the geometry or the radii. *)
Theorem run_keeps_radii (A : DoubleArith) (w h : Z) (evs : list Event) (j j' : Joystick)
  (out : list Signal)
  (Hrun : run A (Resize w h :: evs) j = Returned j' out) :
  radiiFromGeometry j'.
Proof.
  simpl in Hrun.
  destruct (run A evs (resized w h j)) as [j2 o2 |] eqn:Hr; [| discriminate].
  injection Hrun as <- _.
  apply ((run_invariant A) radiiFromGeometry (fun _ => true)) with (4 := Hr).
  - intros e j0 j1 o _ HP Hd.
    pose proof ((deliver_keeps_geometry A) e j0 j1 o Hd) as Hg.
    destruct e;
      try (destruct Hg as (Hw & Hh & Hj & Hc);
           unfold radiiFromGeometry, travelRadius, handleRadius in *;
           rewrite Hw, Hh, Hj, Hc; exact HP).
    subst j1. split; reflexivity.
  - apply forallb_true.
  - split; reflexivity.
Qed.

Lemma run_keeps_radii_witness :
  radiiFromGeometry
    (setMode XAxisOnly
       (resized 120 80 (mouseReleaseEvent (resized 300 200 (Joystick_new 0 0))))).
Proof.
  apply ((run_keeps_radii exactArith) 300 200 [MouseRelease; Resize 120 80; SetMode XAxisOnly]
           (Joystick_new 0 0) _ []).
  reflexivity.
Defined.

Lemma resized_sized (w h : Z) (j : Joystick) :
  0 <= w -> 0 <= h ->
  0 <= width (resized w h j) /\ 0 <= height (resized w h j) /\
  travelRadius (resized w h j) =
    getRadius (width (resized w h j)) (height (resized w h j)) /\
  handleWithinTravel (resized w h j).
Proof.
  intros Hw Hh.
  split; [exact Hw |]. split; [exact Hh |]. split; [reflexivity |].
  unfold handleWithinTravel, handlePos, translateTopLeftToCenter, travelRadius,
    resized, resizeEvent, getCenter, setRadius.
  cbn [qx qy radius m_joystick m_controllerPosition width height
       size_width size_height].
  rewrite !Z.sub_diag. simpl Z.abs.
  pose proof (getRadius_bounds w h Hw Hh). tauto.
Qed.

(** The invariant of a sized widget: a non-negative size, the travel
    radius of that size, and the handle within the travel radius on both
    axes. *)
Lemma sized_step (A : DoubleArith) (HA : DoubleLaws A) (e : Event) (j j' : Joystick) (out : list Signal) :
  sizeOk e = true ->
  (0 <= width j /\ 0 <= height j /\
   travelRadius j = getRadius (width j) (height j) /\ handleWithinTravel j) ->
  deliver A e j = Returned j' out ->
  (0 <= width j' /\ 0 <= height j' /\
   travelRadius j' = getRadius (width j') (height j') /\ handleWithinTravel j').
Proof.
  intros Hok (Hw & Hh & Hrad & Hx & Hy) Hd.
  assert (Hr : 0 <= travelRadius j).
  { rewrite Hrad. apply getRadius_bounds; assumption. }
  destruct e; simpl in Hd.
  - (* Resize *)
    injection Hd as <- _. simpl in Hok. apply andb_prop in Hok.
    destruct Hok as [Hw' Hh']. apply Z.leb_le in Hw', Hh'.
    apply resized_sized; assumption.
  - (* MouseMove *)
    pose proof ((mouseMoveEvent_frame A) _ _ _ _ _ _ Hd)
      as (Fw & Fh & _ & _ & _ & _ & Fj & _).
    assert (FR : travelRadius j' = travelRadius j)
      by (unfold travelRadius; rewrite Fj; reflexivity).
    rewrite Fw, Fh, FR.
    split; [exact Hw |]. split; [exact Hh |]. split; [exact Hrad |].
    unfold handleWithinTravel. rewrite FR.
    destruct (Z.eq_dec buttons LeftButton) as [-> | Hb].
    + assert (Hmode : m_mode j <> NoAxis).
      { intros E. unfold mouseMoveEvent in Hd. simpl negb in Hd. cbv iota in Hd.
        rewrite E in Hd. discriminate. }
      destruct (left_move_within_radius A HA ex ey j Hr Hmode)
        as (j1 & o1 & Hev & Tx & Ty & _ & _ & Kx & Ky).
      rewrite Hev in Hd. injection Hd as <- _.
      split.
      * destruct (m_mode j) eqn:E; try (apply Tx; discriminate).
        rewrite (Kx eq_refl). exact Hx.
      * destruct (m_mode j) eqn:E; try (apply Ty; discriminate).
        rewrite (Ky eq_refl). exact Hy.
    + rewrite (mouseMoveEvent_other_buttons A) in Hd by assumption.
      injection Hd as <- _. split; assumption.
  - (* MouseRelease *)
    injection Hd as <- _. unfold mouseReleaseEvent.
    destruct (m_backToZero j).
    + split; [exact Hw |]. split; [exact Hh |]. split; [exact Hrad |].
      unfold handleWithinTravel, handlePos, translateTopLeftToCenter, getCenter.
      cbn [qx qy m_controllerPosition width height size_width size_height
           setControllerPosition].
      rewrite !Z.sub_diag. simpl Z.abs.
      change (travelRadius (setControllerPosition
                              (mkQPoint (width j ÷ 2) (height j ÷ 2)) j))
        with (travelRadius j).
      split; exact Hr.
    + repeat split; assumption.
  - injection Hd as <- _. repeat split; assumption.
  - injection Hd as <- _. repeat split; assumption.
  - injection Hd as <- _. unfold Joystick_setX; cbv zeta.
    destruct (negb (int_to_char v =? m_x j)); repeat split; assumption.
  - injection Hd as <- _. unfold Joystick_setY; cbv zeta.
    destruct (negb (int_to_char v =? m_y j)); repeat split; assumption.
Qed.

(** X17: once the widget has been resized (to sizes that are not
    negative), no sequence of moves, releases, resizes, mode changes and
    setter calls takes the handle out of reach: as long as the program
    runs, both coordinates of the handle stay within the travel radius of
    the centre, and the handle's position is a point of the widget; in the
    clamping branch, under every double arithmetic that keeps the laws. *)
Theorem run_keeps_handle_in_widget (A : DoubleArith) (w h : Z) (evs : list Event)
  (j j' : Joystick) (out : list Signal)
  (HA : DoubleLaws A)
  (Hw : 0 <= w) (Hh : 0 <= h) (Hsizes : forallb sizeOk evs = true)
  (Hrun : run A (Resize w h :: evs) j = Returned j' out) :
  handleWithinTravel j' /\
  0 <= qx (m_controllerPosition j') <= width j' /\
  0 <= qy (m_controllerPosition j') <= height j'.
Proof.
  simpl in Hrun.
  destruct (run A evs (resized w h j)) as [j2 o2 |] eqn:Hr; [| discriminate].
  injection Hrun as <- _.
  assert (Hinv : 0 <= width j2 /\ 0 <= height j2 /\
                 travelRadius j2 = getRadius (width j2) (height j2) /\
                 handleWithinTravel j2).
  { apply ((run_invariant A) _ sizeOk (sized_step A HA) evs (resized w h j) j2 o2 Hsizes);
      [| exact Hr].
    apply resized_sized; assumption. }
  destruct Hinv as (Hw2 & Hh2 & Hrad & Hx & Hy).
  split; [split; assumption |].
  destruct (getRadius_bounds _ _ Hw2 Hh2) as (_ & _ & Hrw & Hrh).
  rewrite <- Hrad in Hrw, Hrh.
  unfold handlePos, translateTopLeftToCenter in Hx, Hy.
  cbn [qx qy size_width size_height] in Hx, Hy.
  rewrite quot2_nonneg in * by assumption.
  pose proof (Z.div_mod (width j2) 2 ltac:(lia)).
  pose proof (Z.mod_pos_bound (width j2) 2 ltac:(lia)).
  pose proof (Z.div_mod (height j2) 2 ltac:(lia)).
  pose proof (Z.mod_pos_bound (height j2) 2 ltac:(lia)).
  lia.
Qed.

Lemma run_keeps_handle_in_widget_witness :
  exists j' out,
    run exactArith [Resize 150 150; MouseMove LeftButton 80 70; SetMode XAxisOnly;
         MouseMove LeftButton 999 (-40); Resize 40 90;
         MouseMove LeftButton (-5) 7]
        (Joystick_new 0 0) = Returned j' out /\
    handleWithinTravel j'.
Proof.
  destruct (run exactArith [Resize 150 150; MouseMove LeftButton 80 70; SetMode XAxisOnly;
                 MouseMove LeftButton 999 (-40); Resize 40 90;
                 MouseMove LeftButton (-5) 7]
                (Joystick_new 0 0)) as [j' out |] eqn:Hrun.
  - exists j', out. split; [reflexivity |].
    apply ((run_keeps_handle_in_widget exactArith) 150 150
             [MouseMove LeftButton 80 70; SetMode XAxisOnly;
              MouseMove LeftButton 999 (-40); Resize 40 90;
              MouseMove LeftButton (-5) 7]
             (Joystick_new 0 0) j' out);
      [exact exactArith_laws | lia | lia | reflexivity | exact Hrun].
  - vm_compute in Hrun. discriminate Hrun.
Defined.

(** ** The axis values *)

Lemma deliver_keeps_axis_values (A : DoubleArith) (e : Event) (j j' : Joystick) (out : list Signal) :
  setsAxisValue e = false ->
  deliver A e j = Returned j' out ->
  m_x j' = m_x j /\ m_y j' = m_y j.
Proof.
  intros Hok Hd. destruct e; simpl in Hok; try discriminate; simpl in Hd.
  - injection Hd as <- _. split; reflexivity.
  - apply (mouseMoveEvent_frame A) in Hd. tauto.
  - injection Hd as <- _. unfold mouseReleaseEvent.
    destruct (m_backToZero j); split; reflexivity.
  - injection Hd as <- _. split; reflexivity.
  - injection Hd as <- _. split; reflexivity.
Qed.

(** X18: the two axis values are not connected to the handle: no resize,
    pointer move, release, mode change or change of the return-to-centre
    flag alters [x()] or [y()], so that after any run of such events on a
    new joystick both are still 0, wherever the handle has been dragged. *)
Theorem events_never_set_axis_values (A : DoubleArith) (evs : list Event) (j j' : Joystick)
  (out : list Signal)
  (Hevs : existsb setsAxisValue evs = false)
  (Hrun : run A evs j = Returned j' out) :
  x j' = x j /\ y j' = y j /\
  (forall w h, j = Joystick_new w h -> x j' = 0 /\ y j' = 0).
Proof.
  assert (Hkeep : m_x j' = m_x j /\ m_y j' = m_y j).
  { revert j j' out Hevs Hrun.
    induction evs as [| e rest IH]; intros j j' out Hevs Hrun.
    - simpl in Hrun. injection Hrun as <- _. split; reflexivity.
    - simpl in Hevs. apply orb_false_elim in Hevs. destruct Hevs as [He Hrest].
      simpl in Hrun.
      destruct (deliver A e j) as [j1 o1 |] eqn:Hd; [| discriminate].
      destruct (run A rest j1) as [j2 o2 |] eqn:Hr; [| discriminate].
      injection Hrun as <- _.
      destruct (IH j1 j2 o2 Hrest Hr) as [Hx Hy].
      destruct ((deliver_keeps_axis_values A) e j j1 o1 He Hd) as [Hx1 Hy1].
      split; congruence. }
  destruct Hkeep as [Hx Hy]. unfold x, y.
  split; [exact Hx |]. split; [exact Hy |].
  intros w h ->. rewrite Hx, Hy. split; reflexivity.
Qed.

Lemma events_never_set_axis_values_witness :
  exists j' out,
    run exactArith [Resize 300 200; MouseMove LeftButton 180 90; SetMode YAxisOnly;
         MouseMove LeftButton 10 500; MouseRelease]
        (Joystick_new 0 0) = Returned j' out /\
    x j' = 0 /\ y j' = 0.
Proof.
  destruct (run exactArith [Resize 300 200; MouseMove LeftButton 180 90; SetMode YAxisOnly;
                 MouseMove LeftButton 10 500; MouseRelease]
                (Joystick_new 0 0)) as [j' out |] eqn:Hrun.
  - exists j', out. split; [reflexivity |].
    destruct ((events_never_set_axis_values exactArith)
                [Resize 300 200; MouseMove LeftButton 180 90; SetMode YAxisOnly;
                 MouseMove LeftButton 10 500; MouseRelease]
                (Joystick_new 0 0) j' out eq_refl Hrun) as (_ & _ & H0).
    exact (H0 0 0 eq_refl).
  - vm_compute in Hrun. discriminate Hrun.
Defined.

Lemma Joystick_setX_fields (v : Z) (j : Joystick) :
  Joystick_setX v j =
  {| width := width j; height := height j; m_x := int_to_char v; m_y := m_y j;
     m_backToZero := m_backToZero j; m_mode := m_mode j;
     m_joystick := m_joystick j; m_controller := m_controller j;
     m_controllerPosition := m_controllerPosition j |}.
Proof.
  unfold Joystick_setX; cbv zeta.
  destruct (Z.eqb_spec (int_to_char v) (m_x j)) as [-> | Hne]; simpl.
  - destruct j; reflexivity.
  - reflexivity.
Qed.

Lemma Joystick_setY_fields (v : Z) (j : Joystick) :
  Joystick_setY v j =
  {| width := width j; height := height j; m_x := m_x j; m_y := int_to_char v;
     m_backToZero := m_backToZero j; m_mode := m_mode j;
     m_joystick := m_joystick j; m_controller := m_controller j;
     m_controllerPosition := m_controllerPosition j |}.
Proof.
  unfold Joystick_setY; cbv zeta.
  destruct (Z.eqb_spec (int_to_char v) (m_y j)) as [-> | Hne]; simpl.
  - destruct j; reflexivity.
  - reflexivity.
Qed.

(** X19: the setters of the axis values take a [char]: the value read back
    is the argument converted to [char], whether or not it differs from the
    stored one; it lies in [-128, 127], and is the argument itself when this
    fits in a [char] (200 is read back as -56); the last of two writes wins;
    writing the stored value, a [char], changes nothing; the two setters
    commute; and neither touches the other value, the mode or the handle. *)
Theorem axis_value_setters (u v : Z) (j : Joystick) :
  x (Joystick_setX v j) = int_to_char v /\
  y (Joystick_setY v j) = int_to_char v /\
  -128 <= x (Joystick_setX v j) <= 127 /\
  -128 <= y (Joystick_setY v j) <= 127 /\
  (-128 <= v <= 127 -> x (Joystick_setX v j) = v /\ y (Joystick_setY v j) = v) /\
  x (Joystick_setX 200 j) = -56 /\ y (Joystick_setY 200 j) = -56 /\
  y (Joystick_setX v j) = y j /\ x (Joystick_setY v j) = x j /\
  Joystick_setX v (Joystick_setX u j) = Joystick_setX v j /\
  Joystick_setY v (Joystick_setY u j) = Joystick_setY v j /\
  (-128 <= x j <= 127 -> Joystick_setX (x j) j = j) /\
  (-128 <= y j <= 127 -> Joystick_setY (y j) j = j) /\
  Joystick_setX u (Joystick_setY v j) = Joystick_setY v (Joystick_setX u j) /\
  handlePos (Joystick_setX v j) = handlePos j /\
  handlePos (Joystick_setY v j) = handlePos j /\
  mode (Joystick_setX v j) = mode j /\ mode (Joystick_setY v j) = mode j.
Proof.
  assert (Hx : forall w k, x (Joystick_setX w k) = int_to_char w)
    by (intros w k; rewrite Joystick_setX_fields; reflexivity).
  assert (Hy : forall w k, y (Joystick_setY w k) = int_to_char w)
    by (intros w k; rewrite Joystick_setY_fields; reflexivity).
  split; [apply Hx |]. split; [apply Hy |].
  split; [rewrite Hx; apply int_to_char_range |].
  split; [rewrite Hy; apply int_to_char_range |].
  split; [intros Hfit; rewrite Hx, Hy; split; apply int_to_char_fits; exact Hfit |].
  split; [rewrite Hx; reflexivity |]. split; [rewrite Hy; reflexivity |].
  split; [rewrite Joystick_setX_fields; reflexivity |].
  split; [rewrite Joystick_setY_fields; reflexivity |].
  split; [rewrite !Joystick_setX_fields; reflexivity |].
  split; [rewrite !Joystick_setY_fields; reflexivity |].
  split.
  { intros Hfit. rewrite Joystick_setX_fields. unfold x in *.
    rewrite (int_to_char_fits _ Hfit). destruct j; reflexivity. }
  split.
  { intros Hfit. rewrite Joystick_setY_fields. unfold y in *.
    rewrite (int_to_char_fits _ Hfit). destruct j; reflexivity. }
  split; [rewrite !Joystick_setX_fields, !Joystick_setY_fields; reflexivity |].
  split; [rewrite Joystick_setX_fields; reflexivity |].
  split; [rewrite Joystick_setY_fields; reflexivity |].
  split; [rewrite Joystick_setX_fields; reflexivity |].
  rewrite Joystick_setY_fields; reflexivity.
Qed.



(** X20: of two resizes the last one decides the state: a resize after a
    resize gives what the second alone gives, and delivering the resize
    event twice is delivering it once; a resize keeps the mode, the
    return-to-centre flag and the axis values, and forgets where the
    handle was. *)
Theorem last_resize_wins (w h w' h' : Z) (q : QPoint) (j : Joystick) :
  resized w h (resized w' h' j) = resized w h j /\
  resizeEvent (resizeEvent j) = resizeEvent j /\
  resized w h (setControllerPosition q j) = resized w h j /\
  mode (resized w h j) = mode j /\
  backToZero (resized w h j) = backToZero j /\
  x (resized w h j) = x j /\ y (resized w h j) = y j.
Proof. repeat split. Qed.

(** ** Single-axis moves follow the pointer in order *)

Lemma clampAxis_clamp (v r : Z) :
  0 <= r -> clampAxis v r = Z.max (- r) (Z.min v r).
Proof.
  intros Hr. unfold clampAxis.
  destruct (Z.ltb_spec v r), (Z.ltb_spec (- r) v), (Z.ltb_spec 0 v); simpl; lia.
Qed.

(** X21: in mode XAxisOnly with a travel radius of at least 0 the handle's
    X coordinate is the pointer's X offset clamped to
    [[- travelRadius, travelRadius]]; so a pointer farther to the right
    never gives a handle farther to the left, and two handle positions are
    never farther apart than the two pointer positions.  The same holds
    for Y in mode YAxisOnly. *)
Theorem single_axis_is_monotone (A : DoubleArith) (ex1 ey1 ex2 ey2 : Z) (j : Joystick)
  (Hr : 0 <= travelRadius j)
  (Hmode : m_mode j = XAxisOnly \/ m_mode j = YAxisOnly) :
  exists j1 o1 j2 o2,
    mouseMoveEvent A LeftButton ex1 ey1 j = Returned j1 o1 /\
    mouseMoveEvent A LeftButton ex2 ey2 j = Returned j2 o2 /\
    (m_mode j = XAxisOnly ->
     qx (handlePos j1) =
       Z.max (- travelRadius j) (Z.min (qx (rawOffset ex1 ey1 j)) (travelRadius j)) /\
     (ex1 <= ex2 -> qx (handlePos j1) <= qx (handlePos j2)) /\
     Z.abs (qx (handlePos j2) - qx (handlePos j1)) <= Z.abs (ex2 - ex1)) /\
    (m_mode j = YAxisOnly ->
     qy (handlePos j1) =
       Z.max (- travelRadius j) (Z.min (qy (rawOffset ex1 ey1 j)) (travelRadius j)) /\
     (ey1 <= ey2 -> qy (handlePos j1) <= qy (handlePos j2)) /\
     Z.abs (qy (handlePos j2) - qy (handlePos j1)) <= Z.abs (ey2 - ey1)).
Proof.
  destruct Hmode as [E | E].
  - destruct ((XAxisOnly_move A) ex1 ey1 j E) as (j1 & o1 & H1 & _ & _ & _ & X1).
    destruct ((XAxisOnly_move A) ex2 ey2 j E) as (j2 & o2 & H2 & _ & _ & _ & X2).
    exists j1, o1, j2, o2. split; [exact H1 |]. split; [exact H2 |].
    split; [| rewrite E; discriminate].
    intros _. rewrite X1, X2, !clampAxis_clamp by assumption.
    unfold rawOffset, translateTopLeftToCenter. cbn [qx size_width].
    repeat split; lia.
  - destruct ((YAxisOnly_move A) ex1 ey1 j E) as (j1 & o1 & H1 & _ & _ & _ & Y1).
    destruct ((YAxisOnly_move A) ex2 ey2 j E) as (j2 & o2 & H2 & _ & _ & _ & Y2).
    exists j1, o1, j2, o2. split; [exact H1 |]. split; [exact H2 |].
    split; [rewrite E; discriminate |].
    intros _. rewrite Y1, Y2, !clampAxis_clamp by assumption.
    unfold rawOffset, translateTopLeftToCenter. cbn [qy size_height].
    repeat split; lia.
Qed.

Lemma single_axis_is_monotone_witness :
  exists j1 o1 j2 o2,
    mouseMoveEvent exactArith LeftButton 30 7
      (setMode XAxisOnly (resized 300 200 (Joystick_new 0 0))) = Returned j1 o1 /\
    mouseMoveEvent exactArith LeftButton 140 90
      (setMode XAxisOnly (resized 300 200 (Joystick_new 0 0))) = Returned j2 o2 /\
    qx (handlePos j1) <= qx (handlePos j2).
Proof.
  destruct ((single_axis_is_monotone exactArith) 30 7 140 90
              (setMode XAxisOnly (resized 300 200 (Joystick_new 0 0))))
    as (j1 & o1 & j2 & o2 & H1 & H2 & HX & _).
  - vm_compute. discriminate.
  - left. reflexivity.
  - exists j1, o1, j2, o2. split; [exact H1 |]. split; [exact H2 |].
    destruct (HX eq_refl) as (_ & Hmono & _). apply Hmono. lia.
Defined.

Lemma NoAxis_moves_never_move_handle_witness :
  mouseMoves exactArith [(0, 10, 20); (2, 200, 7); (3, -30, 45)]
             (setMode NoAxis (resized 300 200 (Joystick_new 0 0))) =
  Returned (setMode NoAxis (resized 300 200 (Joystick_new 0 0))) [].
Proof.
  apply (proj1 ((NoAxis_moves_never_move_handle exactArith)
                  [(0, 10, 20); (2, 200, 7); (3, -30, 45)]
                  (setMode NoAxis (resized 300 200 (Joystick_new 0 0)))
                  eq_refl)).
Defined.
